(** * ADX screening backtest: indicator, screening rule, trade simulator
      and metrics aggregator, embedded from
      [src/indicators/adx.ts], [src/strategies/adx-screening.ts] and
      [src/backtesting/backtest-engine.ts].

    JavaScript numbers that carry prices, capital and indicator values are
    modelled in exact arithmetic as rationals [Q]; array indices, lengths and
    counters are [nat]; timestamps are [Z].  The literal [Infinity] that the
    metrics aggregator can return is kept as a constructor of its own.
    Every division of the indicator is guarded by the source or divides by the
    period; the simulator divides by the entry price and by the initial
    capital, and a division by zero, [Infinity] or [NaN] in JavaScript, reads
    0 in [Q]. *)

From Stdlib Require Import List Bool Arith ZArith QArith Qabs Qminmax Lia Lqa.
Import ListNotations.
Open Scope Q_scope.

(** ** Numbers and arrays as the source uses them *)

(** [x > y] and [x < y] on numbers, as booleans. *)
Definition Qgtb (x y : Q) : bool := negb (Qle_bool x y).
Definition Qltb (x y : Q) : bool := negb (Qle_bool y x).

(** A [number] that is an array length, an index or a counter, used in
    arithmetic. *)
Definition Qnat (n : nat) : Q := inject_Z (Z.of_nat n).

(** [values.reduce((sum, val) => sum + val, 0)]. *)
Definition reduce_sum (values : list Q) : Q := fold_left Qplus values 0.

(** [arr.slice(start, end)] for non-negative [start] and [end]. *)
Definition slice {A : Type} (arr : list A) (start stop : nat) : list A :=
  firstn (stop - start) (skipn start arr).

(** [arr[i] = v] on an array of optional values: an index past the end
    extends the array, the gap reading as [undefined]. *)
Fixpoint set_nth {A : Type} (i : nat) (v : option A) (arr : list (option A))
  : list (option A) :=
  match i, arr with
  | O, [] => [v]
  | O, _ :: rest => v :: rest
  | S k, [] => None :: set_nth k v []
  | S k, x :: rest => x :: set_nth k v rest
  end.

(** [arr[arr.length - 1]] on an array of optional values ([undefined] on the
    empty array). *)
Definition last_elem {A : Type} (arr : list (option A)) : option A :=
  nth (length arr - 1) arr None.

(** ** src/indicators/adx.ts *)

Record Candle : Type := mkCandle {
  high : Q;
  low : Q;
  close : Q;
  open : Q;
  timestamp : Z
}.

Record ADXResult : Type := mkADXResult {
  adx : Q;
  plusDI : Q;
  minusDI : Q
}.

(** [candles[i]]: every read in the source is at an index below
    [candles.length]; the default stands for the read the source never does. *)
Definition candle0 : Candle := mkCandle 0 0 0 0 0%Z.
Definition candle_at (candles : list Candle) (i : nat) : Candle :=
  nth i candles candle0.

Definition calculateTrueRange (candles : list Candle) (index : nat) : Q :=
  match index with
  | O => high (candle_at candles 0) - low (candle_at candles 0)
  | S prev =>
      let current := candle_at candles index in
      let previous := candle_at candles prev in
      let tr1 := high current - low current in
      let tr2 := Qabs (high current - close previous) in
      let tr3 := Qabs (low current - close previous) in
      Qmax (Qmax tr1 tr2) tr3
  end.

(** The value pushed on [plusDM] at index [i] by the first loop of
    [calculateADX]. *)
Definition plusDMValue (candles : list Candle) (i : nat) : Q :=
  match i with
  | O => 0
  | S prev =>
      let highDiff := high (candle_at candles i) - high (candle_at candles prev) in
      let lowDiff := low (candle_at candles prev) - low (candle_at candles i) in
      if Qgtb highDiff lowDiff && Qgtb highDiff 0 then highDiff else 0
  end.

(** The value pushed on [minusDM] at index [i]. *)
Definition minusDMValue (candles : list Candle) (i : nat) : Q :=
  match i with
  | O => 0
  | S prev =>
      let highDiff := high (candle_at candles i) - high (candle_at candles prev) in
      let lowDiff := low (candle_at candles prev) - low (candle_at candles i) in
      if Qgtb lowDiff highDiff && Qgtb lowDiff 0 then lowDiff else 0
  end.

(** The three running averages [smoothedTR], [smoothedPlusDM] and
    [smoothedMinusDM]: the source declares them [undefined] and assigns them
    together, so they are one optional record here. *)
Record Smoothed : Type := mkSmoothed {
  smoothedTR : Q;
  smoothedPlusDM : Q;
  smoothedMinusDM : Q
}.

(** The variables the second loop of [calculateADX] carries from one index to
    the next, the [results] array apart. *)
Record AdxState : Type := mkAdxState {
  smoothed : option Smoothed;
  smoothedDX : option Q;
  dxValues : list Q
}.

Definition adx_init : AdxState := mkAdxState None None [].

(** One iteration of the second loop at index [i]: the new state and the
    sample written to [results[i]]. *)
Definition adx_step (period : nat) (trueRanges plusDM minusDM : list Q)
    (st : AdxState) (i : nat) : AdxState * ADXResult :=
  let P := Qnat period in
  let sm :=
    match smoothed st with
    | None =>
        mkSmoothed
          (reduce_sum (slice trueRanges (i - period + 1) (i + 1)) / P)
          (reduce_sum (slice plusDM (i - period + 1) (i + 1)) / P)
          (reduce_sum (slice minusDM (i - period + 1) (i + 1)) / P)
    | Some s =>
        mkSmoothed
          ((smoothedTR s * (P - 1) + nth i trueRanges 0) / P)
          ((smoothedPlusDM s * (P - 1) + nth i plusDM 0) / P)
          ((smoothedMinusDM s * (P - 1) + nth i minusDM 0) / P)
    end in
  let pDI :=
    if Qgtb (smoothedTR sm) 0 then (smoothedPlusDM sm / smoothedTR sm) * 100 else 0 in
  let mDI :=
    if Qgtb (smoothedTR sm) 0 then (smoothedMinusDM sm / smoothedTR sm) * 100 else 0 in
  let diSum := pDI + mDI in
  let dx := if Qgtb diSum 0 then (Qabs (pDI - mDI) / diSum) * 100 else 0 in
  let dxs := dxValues st ++ [dx] in
  if (period <=? length dxs)%nat then
    let sdx :=
      match smoothedDX st with
      | None => reduce_sum (skipn (length dxs - period) dxs) / P
      | Some prevDX => (prevDX * (P - 1) + dx) / P
      end in
    (mkAdxState (Some sm) (Some sdx) dxs, mkADXResult sdx pDI mDI)
  else
    (mkAdxState (Some sm) (smoothedDX st) dxs, mkADXResult 0 pDI mDI).

(** The body of the second loop on the pair (loop variables, [results]). *)
Definition adx_body (period : nat) (trueRanges plusDM minusDM : list Q)
    (acc : AdxState * list (option ADXResult)) (i : nat)
  : AdxState * list (option ADXResult) :=
  let (st', sample) := adx_step period trueRanges plusDM minusDM (fst acc) i in
  (st', set_nth i (Some sample) (snd acc)).

Definition calculateADX (candles : list Candle) (period : nat)
  : list (option ADXResult) :=
  let n := length candles in
  if (n <? period * 2)%nat then repeat None n
  else
    let trueRanges := map (calculateTrueRange candles) (seq 0 n) in
    let plusDM := map (plusDMValue candles) (seq 0 n) in
    let minusDM := map (minusDMValue candles) (seq 0 n) in
    snd (fold_left (adx_body period trueRanges plusDM minusDM)
           (seq period (n - period))
           (adx_init, repeat None n)).

Definition getADXValue (candles : list Candle) (index period : nat) : option Q :=
  let adxResults := calculateADX (slice candles 0 (index + 1)) period in
  option_map adx (last_elem adxResults).


(** ** src/strategies/adx-screening.ts *)

Record ADXScreeningParams : Type := mkParams {
  pADXPeriodo : nat;
  pADXMaxLateral : Q
}.

Record ScreeningResult : Type := mkScreening {
  screening : bool;
  adxValue : Q;
  isLateral : bool;
  sr_timestamp : Z
}.

Definition screen (params : ADXScreeningParams) (candles : list Candle)
    (index : nat) : option ScreeningResult :=
  if (index <? pADXPeriodo params * 2)%nat then None
  else
    let adxResults :=
      calculateADX (slice candles 0 (index + 1)) (pADXPeriodo params) in
    match last_elem adxResults with
    | None => None
    | Some adxResult =>
        if Qeq_bool (adx adxResult) 0 then None
        else
          let lateral := Qle_bool (adx adxResult) (pADXMaxLateral params) in
          Some (mkScreening lateral (adx adxResult) lateral
                  (timestamp (candle_at candles index)))
    end.

Definition screenAll (params : ADXScreeningParams) (candles : list Candle)
  : list (option ScreeningResult) :=
  map (screen params candles) (seq 0 (length candles)).

(** ** src/backtesting/backtest-engine.ts *)

Inductive Side : Type := long | short.

Inductive TradingMode : Type := mode_long | mode_short | mode_both.

Record Trade : Type := mkTrade {
  entryIndex : nat;
  exitIndex : nat;
  entryPrice : Q;
  exitPrice : Q;
  entryTime : Z;
  exitTime : Z;
  pnl : Q;
  pnlPercent : Q;
  type : Side
}.

Record BacktestConfig : Type := mkConfig {
  initialCapital : Q;
  positionSize : Q;
  commission : Q;
  slippage : Q;
  maxHoldingPeriod : option nat;
  tradingMode : TradingMode
}.

(** The open position of [run]: [{ type, entryIndex, entryPrice } | null]. *)
Module Position.
Record t : Type := mk { type : Side; entryIndex : nat; entryPrice : Q }.
End Position.

(** The [number] fields of the result that can be [Infinity]. *)
Inductive JSNumber : Type := Finite (q : Q) | Infinity.

Record BacktestResult : Type := mkResult {
  trades : list Trade;
  totalTrades : nat;
  winningTrades : nat;
  losingTrades : nat;
  winRate : Q;
  totalPnL : Q;
  totalPnLPercent : Q;
  averagePnL : Q;
  averageWin : Q;
  averageLoss : Q;
  largestWin : Q;
  largestLoss : Q;
  profitFactor : JSNumber;
  finalCapital : Q;
  maxDrawdown : Q;
  maxDrawdownPercent : Q;
  screeningSignals : nat;
  screeningSuccessRate : Q
}.

(** The local variables of [run]. *)
Record RunState : Type := mkRun {
  rs_capital : Q;
  rs_peakCapital : Q;
  rs_maxDrawdown : Q;
  rs_position : option Position.t;
  rs_screeningSignals : nat;
  rs_trades : list Trade
}.

Definition run_init (cfg : BacktestConfig) : RunState :=
  mkRun (initialCapital cfg) (initialCapital cfg) 0 None 0 [].

(** The trade record both closing paths of [run] build: exit price by side,
    percent return less the round-trip commission, and the dollar result on
    the running capital.  [exitIdx] is [i] in the loop and
    [candles.length - 1] in the forced close. *)
Definition close_trade (cfg : BacktestConfig) (candles : list Candle)
    (capital : Q) (position : Position.t) (exitIdx : nat) : Trade :=
  let exitCandle := candle_at candles exitIdx in
  let exitPrice :=
    match Position.type position with
    | long => close exitCandle * (1 - slippage cfg)
    | short => close exitCandle * (1 + slippage cfg)
    end in
  let rawPercent :=
    match Position.type position with
    | long => (exitPrice - Position.entryPrice position) / Position.entryPrice position
    | short => (Position.entryPrice position - exitPrice) / Position.entryPrice position
    end in
  let pnlPercent := rawPercent - commission cfg * 2 in
  let positionValue := capital * positionSize cfg in
  let pnl := positionValue * pnlPercent in
  mkTrade (Position.entryIndex position) exitIdx
    (Position.entryPrice position) exitPrice
    (timestamp (candle_at candles (Position.entryIndex position)))
    (timestamp exitCandle)
    pnl pnlPercent (Position.type position).

(** [this.config.maxHoldingPeriod && i - position.entryIndex >= this.config.maxHoldingPeriod]:
    an absent or zero period is falsy. *)
Definition holdingElapsed (cfg : BacktestConfig) (i entry : nat) : bool :=
  match maxHoldingPeriod cfg with
  | None => false
  | Some O => false
  | Some H => (H <=? i - entry)%nat
  end.

(** The position the entry branch assigns at candle [i]. *)
Definition open_position (cfg : BacktestConfig) (candles : list Candle) (i : nat)
  : option Position.t :=
  match tradingMode cfg with
  | mode_long | mode_both =>
      Some (Position.mk long i (close (candle_at candles i) * (1 + slippage cfg)))
  | mode_short =>
      Some (Position.mk short i (close (candle_at candles i) * (1 - slippage cfg)))
  end.

(** The in-loop close at candle [i]: capital, trade list and the drawdown
    trackers are updated and the position is cleared. *)
Definition exit_position (cfg : BacktestConfig) (candles : list Candle)
    (st : RunState) (position : Position.t) (i : nat) : RunState :=
  let trade := close_trade cfg candles (rs_capital st) position i in
  let capital := rs_capital st + pnl trade in
  let peakCapital :=
    if Qgtb capital (rs_peakCapital st) then capital else rs_peakCapital st in
  let drawdown := peakCapital - capital in
  let maxDrawdown :=
    if Qgtb drawdown (rs_maxDrawdown st) then drawdown else rs_maxDrawdown st in
  mkRun capital peakCapital maxDrawdown None (rs_screeningSignals st)
    (rs_trades st ++ [trade]).

(** The body of the [for] loop of [run] at candle [i]. *)
Definition run_step (cfg : BacktestConfig) (candles : list Candle)
    (screeningResults : list (option ScreeningResult))
    (st : RunState) (i : nat) : RunState :=
  match nth i screeningResults None with
  | None => st
  | Some s =>
      let signals :=
        if screening s then S (rs_screeningSignals st) else rs_screeningSignals st in
      let st1 := mkRun (rs_capital st) (rs_peakCapital st) (rs_maxDrawdown st)
                   (rs_position st) signals (rs_trades st) in
      match rs_position st1 with
      | None =>
          if screening s then
            mkRun (rs_capital st1) (rs_peakCapital st1) (rs_maxDrawdown st1)
              (open_position cfg candles i) signals (rs_trades st1)
          else st1
      | Some position =>
          let shouldExit :=
            negb (screening s) || holdingElapsed cfg i (Position.entryIndex position) in
          if shouldExit then exit_position cfg candles st1 position i else st1
      end
  end.

(** The close after the loop: the trade is appended and the capital updated. *)
Definition forced_close (cfg : BacktestConfig) (candles : list Candle)
    (st : RunState) : RunState :=
  match rs_position st with
  | Some position =>
      if (0 <? length candles)%nat then
        let trade :=
          close_trade cfg candles (rs_capital st) position (length candles - 1) in
        mkRun (rs_capital st + pnl trade) (rs_peakCapital st) (rs_maxDrawdown st)
          (rs_position st) (rs_screeningSignals st) (rs_trades st ++ [trade])
      else st
  | None => st
  end.

(** [Math.max(...xs)] and [Math.min(...xs)] on a non-empty array. *)
Definition max_of (xs : list Q) : Q :=
  match xs with [] => 0 | x :: rest => fold_left Qmax rest x end.
Definition min_of (xs : list Q) : Q :=
  match xs with [] => 0 | x :: rest => fold_left Qmin rest x end.

Definition wins (ts : list Trade) : list Trade :=
  filter (fun t => Qgtb (pnl t) 0) ts.
Definition losses (ts : list Trade) : list Trade :=
  filter (fun t => Qltb (pnl t) 0) ts.

(** [ts.reduce((sum, t) => sum + t.pnl, 0)]. *)
Definition reduce_pnl (ts : list Trade) : Q :=
  fold_left (fun acc t => acc + pnl t) ts 0.

Definition grossProfit (ts : list Trade) : Q := reduce_pnl (wins ts).
Definition grossLoss (ts : list Trade) : Q := Qabs (reduce_pnl (losses ts)).

(** [calculateMetrics]; the [sharpeRatio] field, which needs [Math.sqrt], is
    left out of the record. *)
Definition calculateMetrics (cfg : BacktestConfig) (ts : list Trade)
    (finalCap maxDD : Q) (signals : nat) : BacktestResult :=
  let total := length ts in
  let winning := length (wins ts) in
  let losing := length (losses ts) in
  let rate := if (0 <? total)%nat then Qnat winning / Qnat total else 0 in
  let totPnL := reduce_pnl ts in
  let totPct := ((finalCap - initialCapital cfg) / initialCapital cfg) * 100 in
  let avgPnL := if (0 <? total)%nat then totPnL / Qnat total else 0 in
  let avgWin :=
    if (0 <? winning)%nat then reduce_pnl (wins ts) / Qnat winning else 0 in
  let avgLoss :=
    if (0 <? losing)%nat then reduce_pnl (losses ts) / Qnat losing else 0 in
  let bigWin := if (0 <? winning)%nat then max_of (map pnl (wins ts)) else 0 in
  let bigLoss := if (0 <? losing)%nat then min_of (map pnl (losses ts)) else 0 in
  let factor :=
    if Qgtb (grossLoss ts) 0 then Finite (grossProfit ts / grossLoss ts)
    else if Qgtb (grossProfit ts) 0 then Infinity else Finite 0 in
  let ddPct := (maxDD / initialCapital cfg) * 100 in
  let success :=
    if (0 <? signals)%nat then (Qnat winning / Qnat signals) * 100 else 0 in
  mkResult ts total winning losing (rate * 100) totPnL totPct avgPnL avgWin
    avgLoss bigWin bigLoss factor finalCap maxDD ddPct signals success.

(** The loop of [run] over a given signal array, up to the forced close. *)
Definition run_loop (cfg : BacktestConfig) (candles : list Candle)
    (screeningResults : list (option ScreeningResult)) : RunState :=
  fold_left (run_step cfg candles screeningResults)
    (seq 0 (length candles)) (run_init cfg).

Definition run (strategy : ADXScreeningParams) (cfg : BacktestConfig)
    (candles : list Candle) : BacktestResult :=
  let screeningResults := screenAll strategy candles in
  let st := forced_close cfg candles (run_loop cfg candles screeningResults) in
  calculateMetrics cfg (rs_trades st) (rs_capital st) (rs_maxDrawdown st)
    (rs_screeningSignals st).


(** The sum of a list of numbers, as mathematics writes it. *)
Definition Qsum (xs : list Q) : Q := fold_right Qplus 0 xs.

(** Consecutive trades do not overlap: each one is entered strictly after the
    one before it was exited. *)
Fixpoint chronological (ts : list Trade) : Prop :=
  match ts with
  | [] => True
  | a :: rest =>
      match rest with
      | [] => True
      | b :: _ => (exitIndex a < entryIndex b)%nat /\ chronological rest
      end
  end.

(** What the entry rule fixes of a position or trade under a trading mode:
    its side and its slippage-adjusted entry price. *)
Definition entry_rule (cfg : BacktestConfig) (candles : list Candle)
    (side : Side) (entryIdx : nat) (price : Q) : Prop :=
  match tradingMode cfg with
  | mode_long | mode_both =>
      side = long /\ price = close (candle_at candles entryIdx) * (1 + slippage cfg)
  | mode_short =>
      side = short /\ price = close (candle_at candles entryIdx) * (1 - slippage cfg)
  end.

(** The drawdown rule in the words of the specification, replayed over a
    closed-trade list: after each close the running capital moves by the
    trade's [pnl], then [peakCapital = max(peakCapital, runningCapital)] and
    [maxDrawdown = max(maxDrawdown, peakCapital - runningCapital)]. *)
Definition drawdown_after_close (acc : Q * Q * Q) (t : Trade) : Q * Q * Q :=
  let '(running, peak, maxDD) := acc in
  let running' := running + pnl t in
  let peak' := Qmax peak running' in
  (running', peak', Qmax maxDD (peak' - running')).

Definition spec_maxDrawdown (initial : Q) (ts : list Trade) : Q :=
  snd (fold_left drawdown_after_close ts (initial, initial, 0)).

(** ** Sample inputs *)

Definition candle (h l c : Z) (t : Z) : Candle :=
  mkCandle (inject_Z h) (inject_Z l) (inject_Z c) (inject_Z c) t.

(** Seven candles; with period 2 the ADX at indices 4, 5 and 6 is
    650/21, 745/21 and 21335/966. *)
Definition sample_candles : list Candle :=
  [candle 10 9 10 0; candle 11 10 11 1; candle 11 9 10 2; candle 13 12 13 3;
   candle 12 10 11 4; candle 14 12 13 5; candle 14 11 12 6].

Definition sample_strategy : ADXScreeningParams := mkParams 2 (32 # 1).

(** The sample series with an eighth candle that keeps the market lateral
    (ADX 29735/1932): the position entered at 6 is still open at the end. *)
Definition open_end_candles : list Candle :=
  sample_candles ++ [candle 13 11 11 7].

(** The sample series with an eighth candle that ends the lateral market
    (ADX 856955/25116): the position entered at 6 is exited in the loop. *)
Definition closed_end_candles : list Candle :=
  sample_candles ++ [candle 12 10 10 7].

(** The defaults of the [BacktestEngine] constructor. *)
Definition default_config : BacktestConfig :=
  mkConfig (10000 # 1) (1 # 10) (1 # 1000) (5 # 10000) None mode_long.

Definition trade0 : Trade := mkTrade 0 0 0 0 0%Z 0%Z 0 0 long.

Definition winning_trade : Trade := mkTrade 4 5 11 13 4%Z 5%Z 5 (1 # 100) long.
Definition losing_trade : Trade := mkTrade 6 7 12 11 6%Z 7%Z (-5 # 1) (-1 # 100) long.

Definition flat_candle (p : Z) (t : Z) : Candle := candle p p p t.

(** Six candles whose fourth and fifth do not move: with period 1 their true
    range is 0, the ADX reads exactly 0 and the screening signal is absent. *)
Definition gap_candles : list Candle :=
  [candle 10 9 10 0; candle 11 10 11 1; candle 12 11 12 2;
   flat_candle 12 3; flat_candle 12 4; candle 14 12 14 5].

Definition gap_strategy : ADXScreeningParams := mkParams 1 (100 # 1).

Definition capped_config : BacktestConfig :=
  mkConfig (10000 # 1) (1 # 10) (1 # 1000) (5 # 10000) (Some 1%nat) mode_long.

(** ** Loop invariants *)

(** Invariant of the loop of [run]: the capital is the initial capital plus
    the result of the closed trades. *)
Definition reconciled (cfg : BacktestConfig) (st : RunState) : Prop :=
  rs_capital st == initialCapital cfg + reduce_pnl (rs_trades st).

(** Invariant of the loop of [run]: closed trades and the open position obey
    the entry rule. *)
Definition sides_ok (cfg : BacktestConfig) (candles : list Candle)
    (st : RunState) : Prop :=
  (forall t, In t (rs_trades st) ->
     entry_rule cfg candles (type t) (entryIndex t) (entryPrice t))
  /\ (forall p, rs_position st = Some p ->
        entry_rule cfg candles (Position.type p) (Position.entryIndex p)
          (Position.entryPrice p)).

(** Invariant of the loop of [run] before candle [i]: closed trades last at
    least one bar and end before [i], the open position was entered before
    [i] and after every closed trade, and the trade list is chronological. *)
Definition ordered_at (i : nat) (st : RunState) : Prop :=
  (forall t, In t (rs_trades st) -> (entryIndex t < exitIndex t < i)%nat)
  /\ (forall p, rs_position st = Some p ->
        (Position.entryIndex p < i)%nat
        /\ forall t, In t (rs_trades st) ->
             (exitIndex t < Position.entryIndex p)%nat)
  /\ chronological (rs_trades st).

(** Invariant of the loop of [run]: capital, peak and maximum drawdown are
    those of the drawdown rule replayed over the closed trades. *)
Definition drawdown_tracked (cfg : BacktestConfig) (st : RunState) : Prop :=
  let '(running, peak, maxDD) :=
    fold_left drawdown_after_close (rs_trades st)
      (initialCapital cfg, initialCapital cfg, 0) in
  rs_capital st == running /\ rs_peakCapital st == peak
  /\ rs_maxDrawdown st == maxDD.

(** Invariant of the loop of [run] before candle [i], for a holding period
    [H]: closed trades lasted at most [H] bars, and the open position was
    entered on a candle that carried a signal, fewer than [H] bars before
    the last candle seen. *)
Definition held_at (H : nat) (sigs : list (option ScreeningResult))
    (i : nat) (st : RunState) : Prop :=
  (forall t, In t (rs_trades st) -> (exitIndex t - entryIndex t <= H)%nat)
  /\ (forall p, rs_position st = Some p ->
        (Position.entryIndex p < i <= Position.entryIndex p + H)%nat
        /\ nth (Position.entryIndex p) sigs None <> None).

(** What holds of the loop variables and of [results] when the second loop of
    [calculateADX] is about to run index [j]. *)
Definition adx_filled (period j : nat)
    (acc : AdxState * list (option ADXResult)) : Prop :=
  length (dxValues (fst acc)) = (j - period)%nat
  /\ (forall i, (i < period)%nat -> nth i (snd acc) None = None)
  /\ (forall i, (period <= i < j)%nat ->
        exists r, nth i (snd acc) None = Some r
                  /\ ((i + 1 < period * 2)%nat -> adx r = 0)).


(** ** Signals, entries and exits of a run *)

(** A candle whose screening signal is present and lateral. *)
Definition is_lateral (o : option ScreeningResult) : bool :=
  match o with
  | Some s => screening s
  | None => false
  end.

(** Invariant of the loop of [run] before candle [i]: the counter holds the
    lateral signals of the candles seen. *)
Definition signals_counted (sigs : list (option ScreeningResult))
    (i : nat) (st : RunState) : Prop :=
  rs_screeningSignals st = length (filter is_lateral (firstn i sigs)).

(** Invariant of the loop of [run]: every closed trade and the open position
    were entered on a lateral signal of their own. *)
Definition entries_counted (st : RunState) : Prop :=
  (length (rs_trades st)
   + match rs_position st with Some _ => 1 | None => 0 end
   <= rs_screeningSignals st)%nat.

(** Invariant of the loop of [run]: trades and the open position were entered
    on candles with a lateral signal. *)
Definition entered_on_lateral (sigs : list (option ScreeningResult))
    (st : RunState) : Prop :=
  (forall t, In t (rs_trades st) -> is_lateral (nth (entryIndex t) sigs None) = true)
  /\ (forall p, rs_position st = Some p ->
        is_lateral (nth (Position.entryIndex p) sigs None) = true).

(** Why the loop closes a position at candle [exitIdx]: the candle has a
    signal, and it is not lateral or the holding period has elapsed. *)
Definition exit_reason (cfg : BacktestConfig)
    (sigs : list (option ScreeningResult)) (t : Trade) : Prop :=
  exists s, nth (exitIndex t) sigs None = Some s
            /\ (screening s = false
                \/ holdingElapsed cfg (exitIndex t) (entryIndex t) = true).

(** What a closed trade records of its two candles and of the configured
    slippage and commission. *)
Definition trade_consistent (cfg : BacktestConfig) (candles : list Candle)
    (t : Trade) : Prop :=
  entryTime t = timestamp (candle_at candles (entryIndex t))
  /\ exitTime t = timestamp (candle_at candles (exitIndex t))
  /\ exitPrice t
     = match type t with
       | long => close (candle_at candles (exitIndex t)) * (1 - slippage cfg)
       | short => close (candle_at candles (exitIndex t)) * (1 + slippage cfg)
       end
  /\ pnlPercent t
     = match type t with
       | long => (exitPrice t - entryPrice t) / entryPrice t
       | short => (entryPrice t - exitPrice t) / entryPrice t
       end - commission cfg * 2.

(** Each trade's result is its percent return on the position size taken from
    the capital as it stood after the trades before it. *)
Definition compounded (cfg : BacktestConfig) (ts : list Trade) : Prop :=
  forall k t, nth_error ts k = Some t ->
    pnl t == (initialCapital cfg + reduce_pnl (firstn k ts))
             * positionSize cfg * pnlPercent t.

(** ** A market that does not move *)

(** Every candle has its high, low and close at one price. *)
Definition still (candles : list Candle) : Prop :=
  exists price, forall c, In c candles ->
    high c == price /\ low c == price /\ close c == price.

(** What the second loop of [calculateADX] carries on a still market: running
    averages and DX values that are 0. *)
Definition still_state (st : AdxState) : Prop :=
  (forall s, smoothed st = Some s -> smoothedTR s == 0)
  /\ (forall v, smoothedDX st = Some v -> v == 0)
  /\ (forall d, In d (dxValues st) -> d == 0).

Definition still_candles : list Candle :=
  [flat_candle 12 0; flat_candle 12 1; flat_candle 12 2; flat_candle 12 3;
   flat_candle 12 4].

(** ** The scale of the indicator *)

(** A sample on the indicator's scale: directional indicators that are not
    negative and an ADX between 0 and 100. *)
Definition sample_ranged (r : ADXResult) : Prop :=
  0 <= plusDI r /\ 0 <= minusDI r /\ 0 <= adx r /\ adx r <= 100.

(** What the second loop of [calculateADX] carries: smoothed directional
    movements that are not negative, DX values between 0 and 100, and a
    running ADX, present only once [period] DX values are, between 0 and
    100. *)
Definition adx_ranged (period : nat) (st : AdxState) : Prop :=
  (forall s, smoothed st = Some s ->
     0 <= smoothedPlusDM s /\ 0 <= smoothedMinusDM s)
  /\ (forall v, smoothedDX st = Some v -> 0 <= v /\ v <= 100)
  /\ (forall d, In d (dxValues st) -> 0 <= d /\ d <= 100).



(** The sample series with every open price set to 0. *)
Definition reopened_candles : list Candle :=
  map (fun c => mkCandle (high c) (low c) (close c) 0 (timestamp c)) sample_candles.

(** ** What the code reads of a candle *)

(** The fields of a candle other than [open]. *)
Definition prices (c : Candle) : Q * Q * Q * Z :=
  (high c, low c, close c, timestamp c).

(** ** When a run trades *)

(** When a trade was entered and exited, and on which side. *)
Definition timing (t : Trade) : nat * nat * Side :=
  (entryIndex t, exitIndex t, type t).

(** What the loop of [run] reads of the signal array: which candles have a
    signal and whether it is lateral. *)
Definition pattern (sigs : list (option ScreeningResult)) : list (option bool) :=
  map (option_map screening) sigs.

(** Two states of the loop of [run] that agree on everything but prices and
    capital. *)
Definition same_timing (st st' : RunState) : Prop :=
  map timing (rs_trades st) = map timing (rs_trades st')
  /\ option_map (fun p => (Position.type p, Position.entryIndex p)) (rs_position st)
     = option_map (fun p => (Position.type p, Position.entryIndex p)) (rs_position st')
  /\ rs_screeningSignals st = rs_screeningSignals st'.

(** A configuration with other capital, size and costs than the default. *)
Definition other_config : BacktestConfig :=
  mkConfig (500 # 1) (1 # 2) (1 # 100) 0 None mode_long.

(** ** Prices in another unit *)










(** * Properties *)

(** Membership in a trade list that a close has just extended: the trade was
    there before, or it is the one pushed. *)
Ltac snoc_cases Hin := apply in_app_or in Hin as [Hin|[<-|[]]].

(** ** Loops over an index range *)

Lemma fold_left_seq_inv (St : Type) (step : St -> nat -> St)
    (P : nat -> St -> Prop) (n start : nat) (init : St) :
  P start init ->
  (forall i st, (start <= i < start + n)%nat -> P i st -> P (S i) (step st i)) ->
  P (start + n)%nat (fold_left step (seq start n) init).
Proof.
  revert start init.
  induction n as [|n IH]; intros start init H0 Hstep; simpl.
  - now rewrite Nat.add_0_r.
  - rewrite <- Nat.add_succ_comm. apply IH.
    + apply Hstep; [lia | exact H0].
    + intros i st Hi. apply Hstep. lia.
Qed.

(** ** Capital and the trade list *)

Lemma reduce_pnl_snoc (ts : list Trade) (t : Trade) :
  reduce_pnl (ts ++ [t]) = reduce_pnl ts + pnl t.
Proof. unfold reduce_pnl. now rewrite fold_left_app. Qed.

Lemma fold_pnl_Qsum (ts : list Trade) (a : Q) :
  fold_left (fun acc t => acc + pnl t) ts a == a + Qsum (map pnl ts).
Proof.
  revert a. induction ts as [|t ts IH]; intro a; simpl.
  - ring.
  - rewrite IH. ring.
Qed.

Lemma reduce_pnl_Qsum (ts : list Trade) : reduce_pnl ts == Qsum (map pnl ts).
Proof. unfold reduce_pnl. rewrite fold_pnl_Qsum. ring. Qed.

Section Reconciliation.

Variable cfg : BacktestConfig.
Variable candles : list Candle.
Variable sigs : list (option ScreeningResult).

Lemma run_step_reconciled (st : RunState) (i : nat) :
  reconciled cfg st -> reconciled cfg (run_step cfg candles sigs st i).
Proof.
  unfold reconciled, run_step. intro H.
  destruct (nth i sigs None) as [s|]; [|exact H].
  cbn [rs_position].
  destruct (rs_position st) as [p|].
  - destruct (negb (screening s) || holdingElapsed cfg i (Position.entryIndex p));
      [|exact H].
    unfold exit_position; cbn [rs_capital rs_trades].
    generalize (close_trade cfg candles (rs_capital st) p i); intro tr.
    rewrite reduce_pnl_snoc, H. ring.
  - destruct (screening s); exact H.
Qed.

Lemma run_loop_reconciled :
  reconciled cfg (run_loop cfg candles sigs).
Proof.
  unfold run_loop.
  apply (fold_left_seq_inv RunState _ (fun _ st => reconciled cfg st)
           (length candles) 0 (run_init cfg)).
  - unfold reconciled, run_init, reduce_pnl; simpl. ring.
  - intros i st _. apply run_step_reconciled.
Qed.

Lemma forced_close_reconciled (st : RunState) :
  reconciled cfg st -> reconciled cfg (forced_close cfg candles st).
Proof.
  unfold reconciled, forced_close. intro H.
  destruct (rs_position st) as [p|]; [|exact H].
  destruct (0 <? length candles)%nat; [|exact H].
  cbn [rs_capital rs_trades].
  generalize (close_trade cfg candles (rs_capital st) p (length candles - 1));
    intro tr.
  rewrite reduce_pnl_snoc, H. ring.
Qed.

End Reconciliation.

(** C5. Reconciliation law: in exact arithmetic the final capital that [run]
    reports is the initial capital plus the sum of [pnl] over the trades of
    the result, and it is the reported [totalPnL] plus the initial capital. *)
Theorem run_reconciliation (strategy : ADXScreeningParams)
    (cfg : BacktestConfig) (candles : list Candle) :
  finalCapital (run strategy cfg candles)
    == initialCapital cfg + Qsum (map pnl (trades (run strategy cfg candles)))
  /\ finalCapital (run strategy cfg candles)
    == totalPnL (run strategy cfg candles) + initialCapital cfg.
Proof.
  pose proof (forced_close_reconciled cfg candles _
                (run_loop_reconciled cfg candles (screenAll strategy candles))) as H.
  unfold reconciled in H.
  unfold run, calculateMetrics; cbn [finalCapital trades totalPnL].
  split.
  - rewrite H. now rewrite reduce_pnl_Qsum.
  - rewrite H. ring.
Qed.

(** ** Side and entry price *)

Section EntryRule.

Variable cfg : BacktestConfig.
Variable candles : list Candle.
Variable sigs : list (option ScreeningResult).

Lemma open_position_rule (i : nat) (p : Position.t) :
  open_position cfg candles i = Some p ->
  entry_rule cfg candles (Position.type p) (Position.entryIndex p)
    (Position.entryPrice p).
Proof.
  unfold open_position, entry_rule.
  destruct (tradingMode cfg); intro H; injection H as <-; cbn; auto.
Qed.

Lemma run_step_sides (st : RunState) (i : nat) :
  sides_ok cfg candles st -> sides_ok cfg candles (run_step cfg candles sigs st i).
Proof.
  intros [Ht Hp]. unfold run_step.
  destruct (nth i sigs None) as [s|]; [|now split].
  cbn [rs_position].
  destruct (rs_position st) as [p|] eqn:Epos.
  - destruct (negb (screening s) || holdingElapsed cfg i (Position.entryIndex p)).
    + split; cbn [exit_position rs_trades rs_position].
      * intros t Hin. snoc_cases Hin; [now apply Ht|].
        cbn. now apply Hp.
      * discriminate.
    + split; cbn [rs_trades rs_position]; [exact Ht|].
      exact Hp.
  - destruct (screening s); split; cbn [rs_trades rs_position]; try exact Ht.
    + intros p. apply open_position_rule.
    + discriminate.
Qed.

Lemma forced_close_sides (st : RunState) :
  sides_ok cfg candles st -> sides_ok cfg candles (forced_close cfg candles st).
Proof.
  intros H. unfold forced_close.
  destruct (rs_position st) as [p|] eqn:Epos; [|exact H].
  destruct (0 <? length candles)%nat; [|exact H].
  destruct H as [Ht Hp].
  split; cbn [rs_trades rs_position].
  - intros t Hin. snoc_cases Hin; [now apply Ht|].
    cbn. now apply Hp.
  - intros q Hq. apply Hp. now rewrite Epos.
Qed.

End EntryRule.

Lemma run_sides strategy cfg candles t :
  In t (trades (run strategy cfg candles)) ->
  entry_rule cfg candles (type t) (entryIndex t) (entryPrice t).
Proof.
  unfold run, calculateMetrics; cbn [trades].
  apply forced_close_sides. unfold run_loop.
  apply (fold_left_seq_inv RunState _ (fun _ st => sides_ok cfg candles st)
           (length candles) 0 (run_init cfg)).
  - split; cbn; [tauto | discriminate].
  - intros i st _. apply run_step_sides.
Qed.

(** ** Indices and order of the trades *)

Lemma chronological_snoc (ts : list Trade) (t : Trade) :
  chronological ts ->
  (forall t', In t' ts -> (exitIndex t' < entryIndex t)%nat) ->
  chronological (ts ++ [t]).
Proof.
  induction ts as [|a rest IH]; intros Hc Hall; [exact I|].
  destruct rest as [|b rest].
  - simpl. split; [apply Hall; now left | exact I].
  - destruct Hc as [Hab Hc].
    change (chronological (a :: (b :: rest) ++ [t])).
    cbn [app chronological]. split; [exact Hab|].
    apply IH; [exact Hc|]. intros t' Hin. apply Hall. now right.
Qed.

Lemma chronological_nth (ts : list Trade) (k : nat) (a b : Trade) :
  chronological ts ->
  nth_error ts k = Some a -> nth_error ts (S k) = Some b ->
  (exitIndex a < entryIndex b)%nat.
Proof.
  revert k. induction ts as [|x rest IH]; intros k Hc Ha Hb.
  - destruct k; discriminate.
  - destruct rest as [|y rest]; [destruct k; discriminate|].
    destruct Hc as [Hxy Hc].
    destruct k as [|k].
    + cbn in Ha, Hb. injection Ha as <-. injection Hb as <-. exact Hxy.
    + apply (IH k Hc); assumption.
Qed.

Lemma ordered_at_weaken i st signals :
  ordered_at i st ->
  ordered_at (S i)
    (mkRun (rs_capital st) (rs_peakCapital st) (rs_maxDrawdown st)
       (rs_position st) signals (rs_trades st)).
Proof.
  intros (Ht & Hp & Hc). split; [|split]; cbn [rs_trades rs_position].
  - intros t Hin. specialize (Ht t Hin). lia.
  - intros p Hpos. destruct (Hp p Hpos) as [Hlt Hb]. split; [lia | exact Hb].
  - exact Hc.
Qed.

Lemma ordered_at_succ i st : ordered_at i st -> ordered_at (S i) st.
Proof.
  intro H. destruct st as [c pk dd pos sg ts].
  exact (ordered_at_weaken i (mkRun c pk dd pos sg ts) sg H).
Qed.

Section TradeOrder.

Variable cfg : BacktestConfig.
Variable candles : list Candle.
Variable sigs : list (option ScreeningResult).

Lemma run_step_ordered (st : RunState) (i : nat) :
  ordered_at i st -> ordered_at (S i) (run_step cfg candles sigs st i).
Proof.
  intros H. unfold run_step.
  destruct (nth i sigs None) as [s|]; [|now apply ordered_at_succ].
  cbn [rs_position].
  destruct (rs_position st) as [p|] eqn:Epos.
  - destruct (negb (screening s) || holdingElapsed cfg i (Position.entryIndex p));
      [|rewrite <- Epos; now apply ordered_at_weaken].
    destruct H as (Ht & Hp & Hc). destruct (Hp p Epos) as [Hlt Hbefore].
    split; [|split]; cbn [exit_position rs_trades rs_position].
    + intros t Hin. snoc_cases Hin.
      * specialize (Ht t Hin). lia.
      * cbn. lia.
    + discriminate.
    + apply chronological_snoc; [exact Hc|].
      intros t' Hin. cbn. now apply Hbefore.
  - destruct (screening s); [|rewrite <- Epos; now apply ordered_at_weaken].
    destruct H as (Ht & Hp & Hc).
    split; [|split]; cbn [rs_trades rs_position].
    + intros t Hin. specialize (Ht t Hin). lia.
    + intros q Hq. unfold open_position in Hq.
      destruct (tradingMode cfg); injection Hq as <-; cbn;
        (split; [lia|]); intros t Hin; specialize (Ht t Hin); lia.
    + exact Hc.
Qed.

Lemma run_loop_ordered :
  ordered_at (length candles) (run_loop cfg candles sigs).
Proof.
  unfold run_loop.
  apply (fold_left_seq_inv RunState _ ordered_at (length candles) 0 (run_init cfg)).
  - split; [|split]; cbn.
    + intros t [].
    + discriminate.
    + exact I.
  - intros i st _. apply run_step_ordered.
Qed.

Lemma forced_close_ordered (st : RunState) :
  ordered_at (length candles) st ->
  (forall t, In t (rs_trades (forced_close cfg candles st)) ->
     (exitIndex t < length candles)%nat
     /\ ((entryIndex t < exitIndex t)%nat
         \/ (entryIndex t = exitIndex t /\ exitIndex t = (length candles - 1)%nat)))
  /\ chronological (rs_trades (forced_close cfg candles st)).
Proof.
  intros (Ht & Hp & Hc). unfold forced_close.
  assert (Hold : forall t, In t (rs_trades st) ->
            (exitIndex t < length candles)%nat
            /\ ((entryIndex t < exitIndex t)%nat
                \/ (entryIndex t = exitIndex t
                    /\ exitIndex t = (length candles - 1)%nat))).
  { intros t Hin. specialize (Ht t Hin). lia. }
  destruct (rs_position st) as [p|] eqn:Epos; [|now split].
  destruct (0 <? length candles)%nat eqn:En; [|now split].
  apply Nat.ltb_lt in En. destruct (Hp p eq_refl) as [Hlt Hbefore].
  cbn [rs_trades]. split.
  - intros t Hin. snoc_cases Hin; [now apply Hold|].
    cbn. lia.
  - apply chronological_snoc; [exact Hc|]. intros t' Hin. cbn. now apply Hbefore.
Qed.

End TradeOrder.

(** C2 (as the code has it). Every trade of [run] is exited on a candle of the
    series, [exitIndex <= lastCandleIndex], and not before its entry; the exit
    is strictly after the entry except for a position opened on the final
    candle, which the forced close exits on that same candle. *)
Theorem run_trade_indices (strategy : ADXScreeningParams)
    (cfg : BacktestConfig) (candles : list Candle) (t : Trade) :
  In t (trades (run strategy cfg candles)) ->
  (exitIndex t < length candles)%nat
  /\ ((entryIndex t < exitIndex t)%nat
      \/ (entryIndex t = exitIndex t /\ exitIndex t = (length candles - 1)%nat)).
Proof.
  unfold run, calculateMetrics; cbn [trades].
  apply (forced_close_ordered cfg candles).
  apply run_loop_ordered.
Qed.

Lemma run_trade_indices_witness :
  In (nth 0 (trades (run sample_strategy default_config sample_candles)) trade0)
     (trades (run sample_strategy default_config sample_candles))
  /\ (exitIndex (nth 0 (trades (run sample_strategy default_config sample_candles)) trade0)
      < length sample_candles)%nat.
Proof.
  assert (Hin : In (nth 0 (trades (run sample_strategy default_config sample_candles)) trade0)
                  (trades (run sample_strategy default_config sample_candles))).
  { vm_compute. left. reflexivity. }
  split; [exact Hin|].
  exact (proj1 (run_trade_indices sample_strategy default_config sample_candles _ Hin)).
Defined.

(** C2, counterexample. On the sample series the signal at the final candle
    (index 6) is lateral with no position open: the position opened there is
    closed by the forced close on the same candle, so the second trade has
    [exitIndex = entryIndex = 6]. *)
Lemma run_final_candle_entry :
  map (fun t => (entryIndex t, exitIndex t))
      (trades (run sample_strategy default_config sample_candles))
    = [(4, 5); (6, 6)]%nat
  /\ ~ (forall t, In t (trades (run sample_strategy default_config sample_candles)) ->
          (exitIndex t > entryIndex t)%nat).
Proof.
  assert (E : map (fun t => (entryIndex t, exitIndex t))
                (trades (run sample_strategy default_config sample_candles))
              = [(4, 5); (6, 6)]%nat) by (vm_compute; reflexivity).
  split; [exact E|].
  intro Hall.
  assert (Hin : In (nth 1 (trades (run sample_strategy default_config sample_candles)) trade0)
                  (trades (run sample_strategy default_config sample_candles))).
  { vm_compute. right. left. reflexivity. }
  specialize (Hall _ Hin). vm_compute in Hall. lia.
Qed.

(** C8. Under trading mode [long] or [both] every trade of [run] is a long
    entered at [close * (1 + slippage)] of its entry candle; a short trade,
    entered at [close * (1 - slippage)], occurs only under mode [short]. *)
Theorem run_entry_side (strategy : ADXScreeningParams)
    (cfg : BacktestConfig) (candles : list Candle) (t : Trade) :
  In t (trades (run strategy cfg candles)) ->
  (tradingMode cfg = mode_long \/ tradingMode cfg = mode_both ->
     type t = long
     /\ entryPrice t = close (candle_at candles (entryIndex t)) * (1 + slippage cfg))
  /\ (type t = short ->
        tradingMode cfg = mode_short
        /\ entryPrice t = close (candle_at candles (entryIndex t)) * (1 - slippage cfg)).
Proof.
  intro Hin. apply run_sides in Hin. unfold entry_rule in Hin.
  destruct (tradingMode cfg); destruct Hin as [Hside Hprice]; split.
  - intros _. now split.
  - rewrite Hside. discriminate.
  - intros [E|E]; discriminate.
  - intros _. now split.
  - intros _. now split.
  - rewrite Hside. discriminate.
Qed.

Lemma run_entry_side_witness :
  type (nth 0 (trades (run sample_strategy default_config sample_candles)) trade0) = long
  /\ entryPrice (nth 0 (trades (run sample_strategy default_config sample_candles)) trade0)
     = close (candle_at sample_candles
                (entryIndex (nth 0 (trades (run sample_strategy default_config sample_candles)) trade0)))
       * (1 + slippage default_config).
Proof.
  assert (Hin : In (nth 0 (trades (run sample_strategy default_config sample_candles)) trade0)
                  (trades (run sample_strategy default_config sample_candles))).
  { vm_compute. left. reflexivity. }
  exact (proj1 (run_entry_side sample_strategy default_config sample_candles _ Hin)
           (or_introl eq_refl)).
Defined.

(** C10. The trades of [run] are chronological and do not overlap: of two
    consecutive trades of the list, the later one is entered on a candle
    strictly after the exit candle of the earlier one. *)
Theorem run_trades_chronological (strategy : ADXScreeningParams)
    (cfg : BacktestConfig) (candles : list Candle) (k : nat) (a b : Trade) :
  nth_error (trades (run strategy cfg candles)) k = Some a ->
  nth_error (trades (run strategy cfg candles)) (S k) = Some b ->
  (exitIndex a < entryIndex b)%nat.
Proof.
  apply chronological_nth.
  unfold run, calculateMetrics; cbn [trades].
  apply (forced_close_ordered cfg candles).
  apply run_loop_ordered.
Qed.

Lemma run_trades_chronological_witness :
  (exitIndex (nth 0 (trades (run sample_strategy default_config sample_candles)) trade0)
   < entryIndex (nth 1 (trades (run sample_strategy default_config sample_candles)) trade0))%nat.
Proof.
  apply (run_trades_chronological sample_strategy default_config sample_candles 0).
  - vm_compute. reflexivity.
  - vm_compute. reflexivity.
Defined.

(** ** Drawdown *)

Lemma Qgtb_lt (x y : Q) : Qgtb x y = true <-> y < x.
Proof.
  unfold Qgtb. rewrite negb_true_iff. split.
  - intro E. apply Qnot_le_lt. intro Hle. apply Qle_bool_iff in Hle. congruence.
  - intro Hlt. destruct (Qle_bool x y) eqn:E; [|reflexivity].
    apply Qle_bool_iff in E. exfalso. exact (Qlt_not_le _ _ Hlt E).
Qed.

Lemma Qgtb_zero (x : Q) : x == 0 -> Qgtb x 0 = false.
Proof.
  intro E. destruct (Qgtb x 0) eqn:G; [|reflexivity].
  apply Qgtb_lt in G. rewrite E in G. exfalso. exact (Qlt_irrefl 0 G).
Qed.

Lemma Qgtb_max (x y x' y' : Q) :
  x == x' -> y == y' -> (if Qgtb x y then x else y) == Qmax y' x'.
Proof.
  intros Ex Ey. destruct (Qgtb x y) eqn:E.
  - apply Qgtb_lt in E. rewrite Q.max_r; [exact Ex|].
    rewrite <- Ex, <- Ey. now apply Qlt_le_weak.
  - rewrite Q.max_l; [exact Ey|].
    rewrite <- Ex, <- Ey.
    unfold Qgtb in E. apply negb_false_iff in E. now apply Qle_bool_iff.
Qed.

Lemma run_step_drawdown cfg candles sigs st i :
  drawdown_tracked cfg st -> drawdown_tracked cfg (run_step cfg candles sigs st i).
Proof.
  intro H. unfold run_step.
  destruct (nth i sigs None) as [s|]; [|exact H].
  cbn [rs_position].
  destruct (rs_position st) as [p|].
  - destruct (negb (screening s) || holdingElapsed cfg i (Position.entryIndex p));
      [|exact H].
    unfold drawdown_tracked, exit_position in *.
    cbn [rs_capital rs_peakCapital rs_maxDrawdown rs_trades] in *.
    generalize (close_trade cfg candles (rs_capital st) p i); intro tr.
    rewrite fold_left_app. cbn [fold_left].
    destruct (fold_left drawdown_after_close (rs_trades st)
                (initialCapital cfg, initialCapital cfg, 0))
      as [[running peak] maxDD].
    destruct H as (Hc & Hp & Hd). cbn [drawdown_after_close].
    assert (Hc' : rs_capital st + pnl tr == running + pnl tr) by now rewrite Hc.
    assert (Hp' : (if Qgtb (rs_capital st + pnl tr) (rs_peakCapital st)
                   then rs_capital st + pnl tr else rs_peakCapital st)
                  == Qmax peak (running + pnl tr)) by now apply Qgtb_max.
    split; [exact Hc'|]. split; [exact Hp'|].
    apply Qgtb_max; [|exact Hd]. now rewrite Hp', Hc'.
  - destruct (screening s); exact H.
Qed.

(** X2. The loop keeps the drawdown rule: when no position is left open after the
    last candle, the reported [maxDrawdown] is the rule's over the trades of
    the result. *)
Theorem run_drawdown_without_forced_close (strategy : ADXScreeningParams)
    (cfg : BacktestConfig) (candles : list Candle) :
  rs_position (run_loop cfg candles (screenAll strategy candles)) = None ->
  maxDrawdown (run strategy cfg candles)
  == spec_maxDrawdown (initialCapital cfg) (trades (run strategy cfg candles)).
Proof.
  intro Hnone.
  assert (Hloop : drawdown_tracked cfg
                    (run_loop cfg candles (screenAll strategy candles))).
  { unfold run_loop.
    apply (fold_left_seq_inv RunState _ (fun _ st => drawdown_tracked cfg st)
             (length candles) 0 (run_init cfg)).
    - unfold drawdown_tracked; cbn. repeat split; reflexivity.
    - intros i st _. apply run_step_drawdown. }
  unfold run, calculateMetrics; cbn [maxDrawdown trades].
  unfold forced_close. rewrite Hnone.
  unfold drawdown_tracked in Hloop. unfold spec_maxDrawdown.
  destruct (fold_left drawdown_after_close
              (rs_trades (run_loop cfg candles (screenAll strategy candles)))
              (initialCapital cfg, initialCapital cfg, 0))
    as [[running peak] maxDD].
  cbn [snd]. apply Hloop.
Qed.

Lemma run_drawdown_without_forced_close_witness :
  maxDrawdown (run sample_strategy default_config (firstn 6 sample_candles))
  == spec_maxDrawdown (initialCapital default_config)
       (trades (run sample_strategy default_config (firstn 6 sample_candles))).
Proof.
  apply (run_drawdown_without_forced_close sample_strategy default_config
           (firstn 6 sample_candles)).
  vm_compute. reflexivity.
Defined.

(** C1, the code at the failing input. On the open-ended series the first
    trade (4 to 5) wins and sets the peak; the second (6 to 7) is closed by
    the forced close at a loss, below that peak.  The drawdown rule replayed
    over the two trades gives a positive maximum drawdown, and [run] reports
    0: the forced close does not update [peakCapital] and [maxDrawdown].
    When the same position is exited in the loop instead, the loss is
    reported. *)
Theorem run_forced_close_skips_drawdown :
  (map (fun t => (entryIndex t, exitIndex t))
       (trades (run sample_strategy default_config open_end_candles))
     = [(4, 5); (6, 7)]%nat
   /\ maxDrawdown (run sample_strategy default_config open_end_candles) == 0
   /\ spec_maxDrawdown (initialCapital default_config)
        (trades (run sample_strategy default_config open_end_candles))
      == 14499884795171 # 165165041250)
  /\ (map (fun t => (entryIndex t, exitIndex t))
         (trades (run sample_strategy default_config closed_end_candles))
       = [(4, 5); (6, 7)]%nat
      /\ maxDrawdown (run sample_strategy default_config closed_end_candles)
         == 56991014216717 # 330330082500).
Proof.
  split; [split; [|split] | split]; vm_compute; reflexivity.
Qed.

(** ** Holding period *)

(** C3, the code at the failing input. With period 1 the two flat candles 3
    and 4 read an ADX of exactly 0, so their signals are absent and the loop
    skips them without looking at the holding period: under
    [maxHoldingPeriod = 1] the position entered at 2 is exited at 5 (three
    bars), and on the first five candles alone it is force-closed at 4 (two
    bars). *)
Theorem run_holding_period_exceeded :
  maxHoldingPeriod capped_config = Some 1%nat
  /\ map (option_map screening) (screenAll gap_strategy gap_candles)
     = [None; None; Some true; None; None; Some true]
  /\ map (fun t => (entryIndex t, exitIndex t))
       (trades (run gap_strategy capped_config gap_candles))
     = [(2, 5)]%nat
  /\ map (fun t => (entryIndex t, exitIndex t))
       (trades (run gap_strategy capped_config (firstn 5 gap_candles)))
     = [(2, 4)]%nat.
Proof.
  repeat split; vm_compute; reflexivity.
Qed.

Lemma holdingElapsed_positive cfg H i entry :
  maxHoldingPeriod cfg = Some H -> (0 < H)%nat ->
  holdingElapsed cfg i entry = (H <=? i - entry)%nat.
Proof.
  intros HH Hpos. unfold holdingElapsed. rewrite HH.
  destruct H as [|H']; [lia | reflexivity].
Qed.

Section HoldingPeriod.

Variable cfg : BacktestConfig.
Variable candles : list Candle.
Variable sigs : list (option ScreeningResult).
Variable H : nat.

Hypothesis Hperiod : maxHoldingPeriod cfg = Some H.
Hypothesis Hpositive : (0 < H)%nat.

(** No signal lapses: a candle after one with a signal has a signal. *)
Hypothesis Hstay :
  forall e j, (e < j < length candles)%nat ->
    nth e sigs None <> None -> nth j sigs None <> None.

(** When no candle after a signal lacks one, the loop looks at the holding
    period on every candle after an entry, and the bound holds. *)
Lemma run_step_held (st : RunState) (i : nat) :
  (i < length candles)%nat ->
  held_at H sigs i st -> held_at H sigs (S i) (run_step cfg candles sigs st i).
Proof.
  intros Hi Hinv. unfold run_step.
  destruct (nth i sigs None) as [s|] eqn:Esig.
  - cbn [rs_position].
    destruct (rs_position st) as [p|] eqn:Epos.
    + destruct Hinv as [Ht Hp]. destruct (Hp p Epos) as [Hrange Hsig].
      destruct (negb (screening s) || holdingElapsed cfg i (Position.entryIndex p))
        eqn:Eexit.
      * split; cbn [exit_position rs_trades rs_position]; [|discriminate].
        intros t Hin. snoc_cases Hin; [now apply Ht|].
        cbn. lia.
      * split; cbn [rs_trades rs_position]; [exact Ht|].
        intros q Hq. injection Hq as <-. split; [|exact Hsig].
        apply orb_false_iff in Eexit as [_ Eheld].
        rewrite (holdingElapsed_positive cfg H) in Eheld by assumption.
        apply Nat.leb_gt in Eheld. lia.
    + destruct Hinv as [Ht Hp].
      destruct (screening s); split; cbn [rs_trades rs_position];
        try exact Ht; try discriminate.
      intros q Hq. unfold open_position in Hq.
      destruct (tradingMode cfg); injection Hq as <-; cbn;
        (split; [lia | rewrite Esig; discriminate]).
  - destruct Hinv as [Ht Hp]. split; [exact Ht|].
    intros p Epos. destruct (Hp p Epos) as [Hrange Hsig].
    exfalso. apply (Hstay (Position.entryIndex p) i); [lia | exact Hsig | exact Esig].
Qed.

Lemma run_loop_held : held_at H sigs (length candles) (run_loop cfg candles sigs).
Proof.
  unfold run_loop.
  apply (fold_left_seq_inv RunState _ (held_at H sigs)
           (length candles) 0 (run_init cfg)).
  - split; cbn; [intros t' [] | discriminate].
  - intros i st Hi. apply run_step_held. lia.
Qed.

(** A position still open after the loop was entered fewer than [H] bars
    before the last candle, where the forced close exits it. *)
Lemma forced_close_held (st : RunState) (t : Trade) :
  held_at H sigs (length candles) st ->
  In t (rs_trades (forced_close cfg candles st)) ->
  (exitIndex t - entryIndex t <= H)%nat.
Proof.
  clear Hperiod Hpositive Hstay.
  intros Hinv. unfold forced_close.
  destruct (rs_position st) as [p|] eqn:Epos; [|now apply Hinv].
  destruct (0 <? length candles)%nat; [|now apply Hinv].
  destruct Hinv as [Ht Hp].
  cbn [rs_trades]. intro Hin.
  snoc_cases Hin; [now apply Ht|].
  destruct (Hp p Epos) as [Hrange _]. cbn. lia.
Qed.

End HoldingPeriod.

(** X1. The holding period where it is enforced. If every candle that follows a
    candle with a screening signal carries one too, then under
    [maxHoldingPeriod = H > 0] every trade of [run] lasts at most [H] bars,
    the forced close included. *)
Theorem run_holding_period_signalled (strategy : ADXScreeningParams)
    (cfg : BacktestConfig) (candles : list Candle) (H : nat) (t : Trade) :
  maxHoldingPeriod cfg = Some H -> (0 < H)%nat ->
  (forall e j, (e < j < length candles)%nat ->
     nth e (screenAll strategy candles) None <> None ->
     nth j (screenAll strategy candles) None <> None) ->
  In t (trades (run strategy cfg candles)) ->
  (exitIndex t - entryIndex t <= H)%nat.
Proof.
  intros HH Hpos Hstay.
  unfold run, calculateMetrics; cbn [trades].
  apply (forced_close_held cfg candles (screenAll strategy candles) H).
  now apply run_loop_held.
Qed.

Lemma run_holding_period_signalled_witness :
  (exitIndex (nth 0 (trades (run sample_strategy capped_config sample_candles)) trade0)
   - entryIndex (nth 0 (trades (run sample_strategy capped_config sample_candles)) trade0)
   <= 1)%nat.
Proof.
  apply (run_holding_period_signalled sample_strategy capped_config sample_candles 1).
  - reflexivity.
  - lia.
  - intros e j [Hej Hj] He.
    assert (Hcases : (j = 5 \/ j = 6 \/ j <= 4)%nat) by (cbn in Hj; lia).
    destruct Hcases as [->|[->|Hle]]; [vm_compute; discriminate ..|].
    exfalso. apply He.
    destruct e as [|[|[|[|e]]]]; try (vm_compute; reflexivity). lia.
  - vm_compute. left. reflexivity.
Defined.

(** ** Metrics *)

(** C7. Profit factor: [grossProfit / grossLoss] when [grossLoss > 0];
    [Infinity] when [grossLoss = 0] and [grossProfit > 0]; [0] when both are
    0.  ([run] returns [calculateMetrics] of its final trade list.) *)
Theorem profitFactor_conventions (cfg : BacktestConfig) (ts : list Trade)
    (finalCap maxDD : Q) (signals : nat) :
  (0 < grossLoss ts ->
     profitFactor (calculateMetrics cfg ts finalCap maxDD signals)
     = Finite (grossProfit ts / grossLoss ts))
  /\ (grossLoss ts == 0 -> 0 < grossProfit ts ->
        profitFactor (calculateMetrics cfg ts finalCap maxDD signals) = Infinity)
  /\ (grossProfit ts == 0 -> grossLoss ts == 0 ->
        profitFactor (calculateMetrics cfg ts finalCap maxDD signals) = Finite 0).
Proof.
  unfold calculateMetrics; cbn [profitFactor].
  split; [|split].
  - intro Hloss. apply Qgtb_lt in Hloss. now rewrite Hloss.
  - intros Hloss Hprofit.
    rewrite (Qgtb_zero (grossLoss ts) Hloss).
    apply Qgtb_lt in Hprofit. now rewrite Hprofit.
  - intros Hprofit Hloss.
    now rewrite (Qgtb_zero (grossLoss ts) Hloss), (Qgtb_zero (grossProfit ts) Hprofit).
Qed.

Lemma profitFactor_conventions_witness :
  profitFactor (calculateMetrics default_config [winning_trade; losing_trade] 0 0 0)
    = Finite (grossProfit [winning_trade; losing_trade]
              / grossLoss [winning_trade; losing_trade])
  /\ profitFactor (calculateMetrics default_config [winning_trade] 0 0 0) = Infinity
  /\ profitFactor (calculateMetrics default_config [] 0 0 0) = Finite 0.
Proof.
  split; [|split].
  - apply (profitFactor_conventions default_config [winning_trade; losing_trade]).
    vm_compute. reflexivity.
  - apply (profitFactor_conventions default_config [winning_trade]).
    + vm_compute. reflexivity.
    + vm_compute. reflexivity.
  - apply (profitFactor_conventions default_config []).
    + vm_compute. reflexivity.
    + vm_compute. reflexivity.
Defined.

(** C9 (as the code has it). The [winRate] field is a percentage:
    [winningTrades / totalTrades * 100] when there is at least one trade, and
    0 when there is none. *)
Theorem run_winRate_percent (strategy : ADXScreeningParams)
    (cfg : BacktestConfig) (candles : list Candle) :
  ((0 < totalTrades (run strategy cfg candles))%nat ->
     winRate (run strategy cfg candles)
     = Qnat (winningTrades (run strategy cfg candles))
       / Qnat (totalTrades (run strategy cfg candles)) * 100)
  /\ (totalTrades (run strategy cfg candles) = 0%nat ->
        winRate (run strategy cfg candles) == 0).
Proof.
  unfold run, calculateMetrics; cbn [winRate totalTrades winningTrades].
  split; intro H.
  - apply Nat.ltb_lt in H. now rewrite H.
  - rewrite H. reflexivity.
Qed.

Lemma run_winRate_percent_witness :
  winRate (run sample_strategy default_config sample_candles)
  = Qnat (winningTrades (run sample_strategy default_config sample_candles))
    / Qnat (totalTrades (run sample_strategy default_config sample_candles)) * 100.
Proof.
  apply (proj1 (run_winRate_percent sample_strategy default_config sample_candles)).
  vm_compute. lia.
Defined.

(** C9, counterexample. The sample run closes two trades, one of them a win:
    [winningTrades / totalTrades] is 1/2 and the [winRate] field is 50. *)
Lemma run_winRate_not_fraction :
  totalTrades (run sample_strategy default_config sample_candles) = 2%nat
  /\ winningTrades (run sample_strategy default_config sample_candles) = 1%nat
  /\ winRate (run sample_strategy default_config sample_candles) == 50
  /\ ~ winRate (run sample_strategy default_config sample_candles)
       == Qnat (winningTrades (run sample_strategy default_config sample_candles))
          / Qnat (totalTrades (run sample_strategy default_config sample_candles)).
Proof.
  repeat split; try (vm_compute; reflexivity).
  vm_compute. discriminate.
Qed.

(** ** Arrays *)

Lemma nth_set_nth (A : Type) (i j : nat) (v : option A) (arr : list (option A)) :
  nth j (set_nth i v arr) None = if (i =? j)%nat then v else nth j arr None.
Proof.
  revert j arr. induction i as [|i IH]; intros j arr.
  - destruct arr, j as [|[|j]]; reflexivity.
  - destruct arr as [|x rest], j as [|j]; cbn [set_nth nth Nat.eqb];
      try reflexivity; rewrite IH; destruct (i =? j)%nat; try reflexivity.
    now destruct j.
Qed.

Lemma length_set_nth (A : Type) (i : nat) (v : option A) (arr : list (option A)) :
  (i < length arr)%nat -> length (set_nth i v arr) = length arr.
Proof.
  revert arr. induction i as [|i IH]; intros [|x rest] Hi; cbn in *; try lia.
  rewrite IH; lia.
Qed.

Lemma firstn_seq_le (m n start : nat) :
  (m <= n)%nat -> firstn m (seq start n) = seq start m.
Proof.
  revert n start. induction m as [|m IH]; intros n start Hle; [reflexivity|].
  destruct n as [|n]; [lia|]. cbn. f_equal. apply IH. lia.
Qed.

Lemma slice_firstn (A : Type) (arr : list A) (m start stop : nat) :
  (stop <= m)%nat -> slice (firstn m arr) start stop = slice arr start stop.
Proof.
  intro Hle. unfold slice.
  rewrite skipn_firstn_comm, firstn_firstn. f_equal. lia.
Qed.

Lemma nth_firstn_lt (A : Type) (arr : list A) (m j : nat) (d : A) :
  (j < m)%nat -> nth j (firstn m arr) d = nth j arr d.
Proof.
  intro Hlt. rewrite nth_firstn.
  apply Nat.ltb_lt in Hlt. now rewrite Hlt.
Qed.

Lemma slice_0 (A : Type) (arr : list A) (stop : nat) :
  slice arr 0 stop = firstn stop arr.
Proof. unfold slice. now rewrite Nat.sub_0_r. Qed.

(** ** The indicator reads only the candles up to the index it computes *)

Lemma candle_at_firstn (candles : list Candle) (m j : nat) :
  (j < m)%nat -> candle_at (firstn m candles) j = candle_at candles j.
Proof. apply nth_firstn_lt. Qed.

Lemma calculateTrueRange_firstn (candles : list Candle) (m j : nat) :
  (j < m)%nat ->
  calculateTrueRange (firstn m candles) j = calculateTrueRange candles j.
Proof.
  intro Hlt. unfold calculateTrueRange.
  destruct j as [|j]; rewrite ?candle_at_firstn by lia; reflexivity.
Qed.

Lemma plusDMValue_firstn (candles : list Candle) (m j : nat) :
  (j < m)%nat -> plusDMValue (firstn m candles) j = plusDMValue candles j.
Proof.
  intro Hlt. unfold plusDMValue.
  destruct j as [|j]; rewrite ?candle_at_firstn by lia; reflexivity.
Qed.

Lemma minusDMValue_firstn (candles : list Candle) (m j : nat) :
  (j < m)%nat -> minusDMValue (firstn m candles) j = minusDMValue candles j.
Proof.
  intro Hlt. unfold minusDMValue.
  destruct j as [|j]; rewrite ?candle_at_firstn by lia; reflexivity.
Qed.

(** The per-index arrays of a prefix are the prefixes of the arrays of the
    whole series. *)
Lemma series_firstn (f : list Candle -> nat -> Q) (candles : list Candle) (m : nat) :
  (forall j, (j < m)%nat -> f (firstn m candles) j = f candles j) ->
  (m <= length candles)%nat ->
  map (f (firstn m candles)) (seq 0 (length (firstn m candles)))
  = firstn m (map (f candles) (seq 0 (length candles))).
Proof.
  intros Hf Hle.
  rewrite firstn_map, firstn_seq_le, firstn_length_le by exact Hle.
  apply map_ext_in. intros j Hin. apply in_seq in Hin. apply Hf. lia.
Qed.

Lemma adx_step_firstn (period m j : nat) (tr pd md : list Q) (st : AdxState) :
  (j < m)%nat ->
  adx_step period (firstn m tr) (firstn m pd) (firstn m md) st j
  = adx_step period tr pd md st j.
Proof.
  intro Hlt. unfold adx_step.
  rewrite !slice_firstn by lia. rewrite !nth_firstn_lt by exact Hlt.
  reflexivity.
Qed.

Lemma adx_body_pair (period j : nat) (tr pd md : list Q) (st : AdxState)
    (r : list (option ADXResult)) :
  adx_body period tr pd md (st, r) j
  = (fst (adx_step period tr pd md st j),
     set_nth j (Some (snd (adx_step period tr pd md st j))) r).
Proof.
  unfold adx_body; cbn [fst snd].
  now destruct (adx_step period tr pd md st j).
Qed.

(** Two runs of the second loop over the same indices below [m], one on the
    arrays cut at [m], start from the same loop variables: they end in the
    same loop variables, and [results] arrays that agree at [k] before agree
    at [k] after. *)
Lemma adx_loop_firstn (period m k : nat) (tr pd md : list Q) (idx : list nat) :
  (forall j, In j idx -> (j < m)%nat) ->
  forall (st : AdxState) (r1 r2 : list (option ADXResult)),
  nth k r1 None = nth k r2 None ->
  fst (fold_left (adx_body period (firstn m tr) (firstn m pd) (firstn m md)) idx (st, r1))
  = fst (fold_left (adx_body period tr pd md) idx (st, r2))
  /\ nth k (snd (fold_left (adx_body period (firstn m tr) (firstn m pd) (firstn m md))
                   idx (st, r1))) None
     = nth k (snd (fold_left (adx_body period tr pd md) idx (st, r2))) None.
Proof.
  induction idx as [|j idx IH]; intros Hidx st r1 r2 Hk; [now split|].
  cbn [fold_left]. rewrite !adx_body_pair.
  rewrite adx_step_firstn by (apply Hidx; now left).
  apply IH.
  - intros j' Hin. apply Hidx. now right.
  - rewrite !nth_set_nth. now destruct (j =? k)%nat.
Qed.

(** Iterations at other indices leave [results[k]] as it is. *)
Lemma adx_loop_untouched (period k : nat) (tr pd md : list Q) (idx : list nat) :
  (forall j, In j idx -> j <> k) ->
  forall acc : AdxState * list (option ADXResult),
  nth k (snd (fold_left (adx_body period tr pd md) idx acc)) None
  = nth k (snd acc) None.
Proof.
  induction idx as [|j idx IH]; intros Hidx acc; [reflexivity|].
  cbn [fold_left]. rewrite IH by (intros j' Hin; apply Hidx; now right).
  unfold adx_body. destruct (adx_step period tr pd md (fst acc) j) as [st' sample].
  cbn [snd]. rewrite nth_set_nth.
  destruct (Nat.eqb_spec j k) as [E|_]; [|reflexivity].
  exfalso. apply (Hidx j); [now left | exact E].
Qed.

(** Writes inside the array keep its length. *)
Lemma adx_loop_length (period : nat) (tr pd md : list Q) (idx : list nat) :
  forall acc : AdxState * list (option ADXResult),
  (forall j, In j idx -> (j < length (snd acc))%nat) ->
  length (snd (fold_left (adx_body period tr pd md) idx acc)) = length (snd acc).
Proof.
  induction idx as [|j idx IH]; intros acc Hidx; [reflexivity|].
  cbn [fold_left].
  assert (Hlen : length (snd (adx_body period tr pd md acc j)) = length (snd acc)).
  { unfold adx_body. destruct (adx_step period tr pd md (fst acc) j) as [st' sample].
    cbn [snd]. apply length_set_nth. apply Hidx. now left. }
  rewrite IH; [exact Hlen|].
  intros j' Hin. rewrite Hlen. apply Hidx. now right.
Qed.

Lemma calculateADX_length (candles : list Candle) (period : nat) :
  length (calculateADX candles period) = length candles.
Proof.
  unfold calculateADX.
  destruct (length candles <? period * 2)%nat eqn:E; [apply repeat_length|].
  apply Nat.ltb_ge in E.
  rewrite adx_loop_length; cbn [snd]; [apply repeat_length|].
  intros j Hin. apply in_seq in Hin. rewrite repeat_length. lia.
Qed.

(** The last element of the indicator on the first [i + 1] candles is element
    [i] of the indicator on the whole series. *)
Lemma calculateADX_last_of_prefix (candles : list Candle) (period i : nat) :
  (period * 2 <= i + 1)%nat -> (i < length candles)%nat ->
  last_elem (calculateADX (slice candles 0 (i + 1)) period)
  = nth i (calculateADX candles period) None.
Proof.
  intros H2p Hi.
  unfold last_elem. rewrite calculateADX_length, slice_0.
  rewrite firstn_length_le by lia.
  replace (i + 1 - 1)%nat with i by lia.
  unfold calculateADX.
  rewrite (series_firstn calculateTrueRange), (series_firstn plusDMValue),
    (series_firstn minusDMValue);
    try lia;
    try (intros j Hj;
         first [ now apply calculateTrueRange_firstn
               | now apply plusDMValue_firstn
               | now apply minusDMValue_firstn ]).
  rewrite firstn_length_le by lia.
  destruct (Nat.ltb_spec (i + 1) (period * 2)) as [Hc|_]; [lia|].
  destruct (Nat.ltb_spec (length candles) (period * 2)) as [Hc|_]; [lia|].
  replace (length candles - period)%nat
    with ((i + 1 - period) + (length candles - (i + 1)))%nat by lia.
  rewrite seq_app, fold_left_app.
  rewrite (adx_loop_untouched period i _ _ _
             (seq (period + (i + 1 - period)) (length candles - (i + 1))))
    by (intros j Hin; apply in_seq in Hin; lia).
  apply adx_loop_firstn.
  - intros j Hin. apply in_seq in Hin. lia.
  - rewrite !nth_repeat. reflexivity.
Qed.

(** [screen] in terms of the full-series scan. *)
Lemma screen_full_series (params : ADXScreeningParams) (candles : list Candle)
    (i : nat) :
  (i < length candles)%nat ->
  screen params candles i
  = if (i <? pADXPeriodo params * 2)%nat then None
    else match nth i (calculateADX candles (pADXPeriodo params)) None with
         | None => None
         | Some r =>
             if Qeq_bool (adx r) 0 then None
             else Some (mkScreening (Qle_bool (adx r) (pADXMaxLateral params))
                          (adx r) (Qle_bool (adx r) (pADXMaxLateral params))
                          (timestamp (candle_at candles i)))
         end.
Proof.
  intro Hi. unfold screen.
  destruct (Nat.ltb_spec i (pADXPeriodo params * 2)) as [_|Hge]; [reflexivity|].
  rewrite calculateADX_last_of_prefix by lia. reflexivity.
Qed.

(** C6. Recomputing over a prefix gives the value of the single pass: for an
    index [i] of the series with [i + 1 >= 2 * period], the last element of
    [calculateADX] on the first [i + 1] candles is element [i] of
    [calculateADX] on the whole series, so [getADXValue] and [screen], which
    read that last element, return the [adx] of the full-series scan. *)
Theorem calculateADX_prefix (candles : list Candle) (period i : nat) :
  (period * 2 <= i + 1)%nat -> (i < length candles)%nat ->
  last_elem (calculateADX (slice candles 0 (i + 1)) period)
  = nth i (calculateADX candles period) None
  /\ getADXValue candles i period
     = option_map adx (nth i (calculateADX candles period) None)
  /\ (forall (maxLateral : Q) (s : ScreeningResult),
        screen (mkParams period maxLateral) candles i = Some s ->
        option_map adx (nth i (calculateADX candles period) None)
        = Some (adxValue s)).
Proof.
  intros H2p Hi.
  pose proof (calculateADX_last_of_prefix candles period i H2p Hi) as Hlast.
  split; [exact Hlast|]. split.
  - unfold getADXValue. now rewrite Hlast.
  - intros maxLateral s. rewrite screen_full_series by exact Hi.
    cbn [pADXPeriodo pADXMaxLateral].
    destruct (i <? period * 2)%nat; [discriminate|].
    destruct (nth i (calculateADX candles period) None) as [r|]; [|discriminate].
    destruct (Qeq_bool (adx r) 0); [discriminate|].
    intro E. injection E as <-. reflexivity.
Qed.

Lemma calculateADX_prefix_witness :
  ((2 * 2 <= 4 + 1)%nat /\ (4 < length sample_candles)%nat)
  /\ last_elem (calculateADX (slice sample_candles 0 (4 + 1)) 2)
     = nth 4 (calculateADX sample_candles 2) None
  /\ getADXValue sample_candles 4 2
     = option_map adx (nth 4 (calculateADX sample_candles 2) None).
Proof.
  assert (H2p : (2 * 2 <= 4 + 1)%nat) by lia.
  assert (Hi : (4 < length sample_candles)%nat) by (cbn; lia).
  destruct (calculateADX_prefix sample_candles 2 4 H2p Hi) as (Hlast & Hget & _).
  split; [split; assumption|]. split; assumption.
Defined.

(** ** Where the indicator has a sample *)

Lemma adx_step_dxValues (period j : nat) (tr pd md : list Q) (st : AdxState) :
  length (dxValues (fst (adx_step period tr pd md st j)))
  = S (length (dxValues st)).
Proof.
  unfold adx_step. cbv zeta.
  destruct (period <=? length (dxValues st ++ _))%nat;
    cbn [fst dxValues]; rewrite length_app; cbn; lia.
Qed.

Lemma adx_step_warmup (period j : nat) (tr pd md : list Q) (st : AdxState) :
  (S (length (dxValues st)) < period)%nat ->
  adx (snd (adx_step period tr pd md st j)) = 0.
Proof.
  intro Hlt. unfold adx_step. cbv zeta.
  destruct (period <=? length (dxValues st ++ _))%nat eqn:E; [|reflexivity].
  apply Nat.leb_le in E. rewrite length_app in E. cbn in E. lia.
Qed.

Lemma adx_body_filled (period j : nat) (tr pd md : list Q)
    (acc : AdxState * list (option ADXResult)) :
  (period <= j)%nat ->
  adx_filled period j acc -> adx_filled period (S j) (adx_body period tr pd md acc j).
Proof.
  intros Hj (Hlen & Hlow & Hhigh). destruct acc as [st r]; cbn [fst snd] in *.
  rewrite adx_body_pair. split; [|split]; cbn [fst snd].
  - rewrite adx_step_dxValues. lia.
  - intros i Hi. rewrite nth_set_nth.
    destruct (Nat.eqb_spec j i) as [E|_]; [lia | now apply Hlow].
  - intros i Hi. rewrite nth_set_nth.
    destruct (Nat.eqb_spec j i) as [E|Hne].
    + subst i. eexists. split; [reflexivity|].
      intro Hw. apply adx_step_warmup. lia.
    + apply Hhigh. lia.
Qed.

(** C4 (as the code has it). [calculateADX] has no sample below index
    [period], and none at all on fewer than [2 * period] candles; on a longer
    series it has a sample at every index from [period] on, whose [adx] field
    is 0 up to index [2 * period - 2]. *)
Theorem calculateADX_presence (candles : list Candle) (period : nat) :
  (forall i, (i < period)%nat -> nth i (calculateADX candles period) None = None)
  /\ ((length candles < period * 2)%nat ->
        forall i, nth i (calculateADX candles period) None = None)
  /\ ((period * 2 <= length candles)%nat ->
        forall i, (period <= i < length candles)%nat ->
        exists r, nth i (calculateADX candles period) None = Some r
                  /\ ((i + 1 < period * 2)%nat -> adx r = 0)).
Proof.
  assert (Hshort : (length candles < period * 2)%nat ->
            forall i, nth i (calculateADX candles period) None = None).
  { intros Hlt i. unfold calculateADX.
    apply Nat.ltb_lt in Hlt. rewrite Hlt. apply nth_repeat. }
  assert (Hlong : (period * 2 <= length candles)%nat ->
            adx_filled period (length candles)
              (fold_left
                 (adx_body period
                    (map (calculateTrueRange candles) (seq 0 (length candles)))
                    (map (plusDMValue candles) (seq 0 (length candles)))
                    (map (minusDMValue candles) (seq 0 (length candles))))
                 (seq period (length candles - period))
                 (adx_init, repeat None (length candles)))).
  { intro Hge.
    replace (length candles) with (period + (length candles - period))%nat at 1
      by lia.
    apply fold_left_seq_inv.
    - split; [|split]; cbn [fst snd adx_init dxValues length].
      + lia.
      + intros i _. apply nth_repeat.
      + intros i Hi. lia.
    - intros j acc Hj. apply adx_body_filled. lia. }
  split; [|split].
  - intros i Hi.
    destruct (Nat.lt_ge_cases (length candles) (period * 2)) as [Hlt|Hge];
      [now apply Hshort|].
    destruct (Hlong Hge) as (_ & Hlow & _).
    unfold calculateADX. apply Nat.ltb_ge in Hge. rewrite Hge. now apply Hlow.
  - exact Hshort.
  - intros Hge i Hi.
    destruct (Hlong Hge) as (_ & _ & Hhigh).
    unfold calculateADX. apply Nat.ltb_ge in Hge. rewrite Hge. now apply Hhigh.
Qed.

Lemma calculateADX_presence_witness :
  nth 1 (calculateADX sample_candles 2) None = None
  /\ (forall i, nth i (calculateADX (firstn 3 sample_candles) 2) None = None)
  /\ exists r, nth 2 (calculateADX sample_candles 2) None = Some r /\ adx r = 0.
Proof.
  split; [|split].
  - apply (proj1 (calculateADX_presence sample_candles 2)). lia.
  - apply (proj1 (proj2 (calculateADX_presence (firstn 3 sample_candles) 2))).
    vm_compute. lia.
  - destruct (proj2 (proj2 (calculateADX_presence sample_candles 2))) with (i := 2%nat)
      as (r & Hr & Hz).
    + vm_compute. lia.
    + vm_compute. lia.
    + exists r. split; [exact Hr | apply Hz; lia].
Defined.

(** C4, counterexample. With period 2 on the seven sample candles there is a
    sample at index 2 (its [adx] field 0) and one at index 3 (ADX 100/3), both
    below [2 * period = 4]. *)
Lemma calculateADX_sample_before_two_periods :
  map (option_map (fun r => Qred (adx r))) (calculateADX sample_candles 2)
  = [None; None; Some 0; Some (100 # 3); Some (650 # 21); Some (745 # 21);
     Some (21335 # 966)]
  /\ ~ (forall i, (i < 2 * 2)%nat ->
          nth i (calculateADX sample_candles 2) None = None).
Proof.
  split; [vm_compute; reflexivity|].
  intro Hall. specialize (Hall 3%nat ltac:(lia)).
  vm_compute in Hall. discriminate.
Qed.

(** ** The ADX does not return to zero *)

Lemma Qnat_pos (n : nat) : (0 < n)%nat -> 0 < Qnat n.
Proof. intro H. unfold Qnat, Qlt; cbn. lia. Qed.


Lemma dx_nonneg (a s : Q) : 0 <= (if Qgtb s 0 then Qabs a / s * 100 else 0).
Proof.
  destruct (Qgtb s 0) eqn:E; [|apply Qle_refl].
  apply Qgtb_lt in E.
  apply Qmult_le_0_compat; [|discriminate].
  apply Qle_shift_div_l; [exact E|].
  rewrite Qmult_0_l. apply Qabs_nonneg.
Qed.

Lemma fold_Qplus_nonneg (xs : list Q) (a : Q) :
  0 <= a -> (forall x, In x xs -> 0 <= x) -> 0 <= fold_left Qplus xs a.
Proof.
  revert a. induction xs as [|x xs IH]; intros a Ha Hxs; [exact Ha|].
  cbn. apply IH.
  - assert (0 <= x) by (apply Hxs; now left). lra.
  - intros y Hy. apply Hxs. now right.
Qed.

Lemma in_skipn_in (A : Type) (k : nat) (xs : list A) (x : A) :
  In x (skipn k xs) -> In x xs.
Proof.
  intro H. rewrite <- (firstn_skipn k xs). apply in_or_app. now right.
Qed.

Lemma mean_nonneg (xs : list Q) (n : nat) :
  (0 < n)%nat -> (forall x, In x xs -> 0 <= x) -> 0 <= reduce_sum xs / Qnat n.
Proof.
  intros Hn Hxs. apply Qle_shift_div_l; [now apply Qnat_pos|].
  rewrite Qmult_0_l. apply fold_Qplus_nonneg; [apply Qle_refl | exact Hxs].
Qed.






(** ** The holding period with a period of at least 2 *)

Lemma nth_screenAll (params : ADXScreeningParams) (candles : list Candle) (i : nat) :
  (i < length candles)%nat ->
  nth i (screenAll params candles) None = screen params candles i.
Proof.
  intro Hi. unfold screenAll.
  rewrite (nth_indep _ None (screen params candles 0))
    by (rewrite length_map, length_seq; exact Hi).
  rewrite map_nth, seq_nth by exact Hi. reflexivity.
Qed.




(** ** Signals and trades of a run *)

Lemma count_firstn_succ (sigs : list (option ScreeningResult)) (i : nat) :
  length (filter is_lateral (firstn (S i) sigs))
  = (length (filter is_lateral (firstn i sigs))
     + if is_lateral (nth i sigs None) then 1 else 0)%nat.
Proof.
  revert i. induction sigs as [|o sigs IH]; intro i.
  - destruct i; reflexivity.
  - destruct i as [|i].
    + cbn. destruct (is_lateral o); reflexivity.
    + change (firstn (S (S i)) (o :: sigs)) with (o :: firstn (S i) sigs).
      change (firstn (S i) (o :: sigs)) with (o :: firstn i sigs).
      cbn [filter nth]. destruct (is_lateral o); cbn [length]; rewrite IH; lia.
Qed.

Section SignalCount.

Variable cfg : BacktestConfig.
Variable candles : list Candle.
Variable sigs : list (option ScreeningResult).

Lemma run_step_signals (st : RunState) (i : nat) :
  signals_counted sigs i st ->
  signals_counted sigs (S i) (run_step cfg candles sigs st i).
Proof.
  unfold signals_counted. intro H. rewrite count_firstn_succ.
  unfold run_step.
  destruct (nth i sigs None) as [s|]; cbn [is_lateral]; [|lia].
  cbn [rs_position].
  destruct (rs_position st) as [p|].
  - destruct (negb (screening s) || holdingElapsed cfg i (Position.entryIndex p));
      cbn [exit_position rs_screeningSignals]; destruct (screening s); lia.
  - destruct (screening s); cbn [rs_screeningSignals]; lia.
Qed.

Lemma run_loop_signals :
  signals_counted sigs (length candles) (run_loop cfg candles sigs).
Proof.
  unfold run_loop.
  apply (fold_left_seq_inv RunState _ (signals_counted sigs)
           (length candles) 0 (run_init cfg)).
  - reflexivity.
  - intros i st _. apply run_step_signals.
Qed.

Lemma run_step_entries (st : RunState) (i : nat) :
  entries_counted st -> entries_counted (run_step cfg candles sigs st i).
Proof.
  unfold entries_counted, run_step. intro H.
  destruct (nth i sigs None) as [s|]; [|exact H].
  cbn [rs_position].
  destruct (rs_position st) as [p|].
  - destruct (negb (screening s) || holdingElapsed cfg i (Position.entryIndex p));
      cbn [exit_position rs_screeningSignals rs_trades rs_position];
      rewrite ?length_app; cbn [length]; destruct (screening s); lia.
  - destruct (screening s);
      cbn [rs_screeningSignals rs_trades rs_position]; [|lia].
    unfold open_position. destruct (tradingMode cfg); lia.
Qed.

Lemma run_loop_entries : entries_counted (run_loop cfg candles sigs).
Proof.
  unfold run_loop.
  apply (fold_left_seq_inv RunState _ (fun _ st => entries_counted st)
           (length candles) 0 (run_init cfg)).
  - unfold entries_counted; cbn. lia.
  - intros i st _. apply run_step_entries.
Qed.

Lemma forced_close_entries (st : RunState) :
  entries_counted st ->
  (length (rs_trades (forced_close cfg candles st))
   <= rs_screeningSignals (forced_close cfg candles st))%nat.
Proof.
  unfold entries_counted, forced_close. intro H.
  destruct (rs_position st) as [p|]; [|lia].
  destruct (0 <? length candles)%nat;
    cbn [rs_trades rs_screeningSignals]; rewrite ?length_app; cbn [length]; lia.
Qed.

Lemma forced_close_signals (st : RunState) :
  rs_screeningSignals (forced_close cfg candles st) = rs_screeningSignals st.
Proof.
  unfold forced_close. destruct (rs_position st) as [p|]; [|reflexivity].
  now destruct (0 <? length candles)%nat.
Qed.

End SignalCount.

Lemma screenAll_length (params : ADXScreeningParams) (candles : list Candle) :
  length (screenAll params candles) = length candles.
Proof. unfold screenAll. now rewrite length_map, length_seq. Qed.

(** X4. The [screeningSignals] field of [run] is the number of candles whose
    screening signal is present and lateral, whether or not a position was
    open on them. *)
Theorem run_screeningSignals_count (strategy : ADXScreeningParams)
    (cfg : BacktestConfig) (candles : list Candle) :
  screeningSignals (run strategy cfg candles)
  = length (filter is_lateral (screenAll strategy candles)).
Proof.
  unfold run, calculateMetrics; cbn [screeningSignals].
  rewrite forced_close_signals.
  pose proof (run_loop_signals cfg candles (screenAll strategy candles)) as H.
  unfold signals_counted in H. rewrite H.
  rewrite firstn_all2; [reflexivity|].
  rewrite screenAll_length. lia.
Qed.

Lemma Qnat_le (a b : nat) : (a <= b)%nat -> Qnat a <= Qnat b.
Proof. intro H. unfold Qnat, Qle; cbn. lia. Qed.

Lemma Qnat_nonneg (a : nat) : 0 <= Qnat a.
Proof. unfold Qnat, Qle; cbn. lia. Qed.

(** A share [a / b] of a non-empty total, as a percentage. *)
Lemma percent_range (a b : nat) :
  (a <= b)%nat -> (0 < b)%nat ->
  0 <= Qnat a / Qnat b * 100 /\ Qnat a / Qnat b * 100 <= 100.
Proof.
  intros Hab Hb.
  assert (Hlo : 0 <= Qnat a / Qnat b).
  { apply Qle_shift_div_l; [now apply Qnat_pos|].
    rewrite Qmult_0_l. apply Qnat_nonneg. }
  assert (Hhi : Qnat a / Qnat b <= 1).
  { apply Qle_shift_div_r; [now apply Qnat_pos|].
    rewrite Qmult_1_l. now apply Qnat_le. }
  split; lra.
Qed.

(** X5. [run] closes at most as many trades as it counted lateral signals:
    every trade was entered on a lateral candle of its own.  The
    [screeningSuccessRate] field is therefore a percentage between 0 and
    100. *)
Theorem run_trades_within_signals (strategy : ADXScreeningParams)
    (cfg : BacktestConfig) (candles : list Candle) :
  (totalTrades (run strategy cfg candles)
   <= screeningSignals (run strategy cfg candles))%nat
  /\ 0 <= screeningSuccessRate (run strategy cfg candles)
  /\ screeningSuccessRate (run strategy cfg candles) <= 100.
Proof.
  pose proof (forced_close_entries cfg candles _
                (run_loop_entries cfg candles (screenAll strategy candles))) as H.
  unfold run, calculateMetrics;
    cbn [totalTrades screeningSignals screeningSuccessRate].
  set (st := forced_close cfg candles
               (run_loop cfg candles (screenAll strategy candles))) in *.
  split; [exact H|].
  destruct (Nat.ltb_spec 0 (rs_screeningSignals st)) as [Hpos|_].
  - apply percent_range; [|exact Hpos].
    pose proof (filter_length_le (fun t => Qgtb (pnl t) 0) (rs_trades st)).
    unfold wins. lia.
  - split; [apply Qle_refl | discriminate].
Qed.

(** ** Where a run enters and why it exits *)

Lemma screen_some (params : ADXScreeningParams) (candles : list Candle)
    (i : nat) (s : ScreeningResult) :
  screen params candles i = Some s ->
  (pADXPeriodo params * 2 <= i)%nat
  /\ isLateral s = screening s
  /\ (screening s = true <-> adxValue s <= pADXMaxLateral params)
  /\ ~ adxValue s == 0
  /\ sr_timestamp s = timestamp (candle_at candles i).
Proof.
  unfold screen.
  destruct (Nat.ltb_spec i (pADXPeriodo params * 2)) as [_|Hge]; [discriminate|].
  destruct (last_elem _) as [r|]; [|discriminate].
  destruct (Qeq_bool (adx r) 0) eqn:Ez; [discriminate|].
  intro E. injection E as <-. cbn.
  repeat split; try assumption; try reflexivity.
  - apply Qle_bool_iff.
  - apply Qle_bool_iff.
  - intro Hz. apply Qeq_bool_iff in Hz. congruence.
Qed.

Lemma nth_signal_in_range (sigs : list (option ScreeningResult)) (i : nat)
    (s : ScreeningResult) :
  nth i sigs None = Some s -> (i < length sigs)%nat.
Proof.
  intro E. destruct (Nat.lt_ge_cases i (length sigs)) as [Hlt|Hge]; [exact Hlt|].
  rewrite nth_overflow in E by exact Hge. discriminate.
Qed.

Lemma is_lateral_some (o : option ScreeningResult) :
  is_lateral o = true -> exists s, o = Some s /\ screening s = true.
Proof.
  destruct o as [s|]; [|discriminate]. intro E. now exists s.
Qed.

Lemma holdingElapsed_true (cfg : BacktestConfig) (i entry : nat) :
  holdingElapsed cfg i entry = true ->
  exists H, maxHoldingPeriod cfg = Some H /\ (0 < H <= i - entry)%nat.
Proof.
  unfold holdingElapsed.
  destruct (maxHoldingPeriod cfg) as [[|H]|]; try discriminate.
  intro E. apply Nat.leb_le in E. exists (S H). split; [reflexivity | lia].
Qed.

Section EntriesAndExits.

Variable cfg : BacktestConfig.
Variable candles : list Candle.
Variable sigs : list (option ScreeningResult).

Lemma run_step_entered (st : RunState) (i : nat) :
  entered_on_lateral sigs st ->
  entered_on_lateral sigs (run_step cfg candles sigs st i).
Proof.
  intros H. unfold run_step.
  destruct (nth i sigs None) as [s|] eqn:Esig; [|exact H].
  cbn [rs_position].
  destruct (rs_position st) as [p|] eqn:Epos.
  - destruct H as [Ht Hp].
    destruct (negb (screening s) || holdingElapsed cfg i (Position.entryIndex p)).
    + split; cbn [exit_position rs_trades rs_position]; [|discriminate].
      intros t Hin. snoc_cases Hin; [now apply Ht|]. cbn. now apply Hp.
    + split; cbn [rs_trades rs_position]; [exact Ht|].
      intros q Hq. injection Hq as <-. now apply Hp.
  - destruct H as [Ht Hp].
    destruct (screening s) eqn:Escr; split; cbn [rs_trades rs_position];
      try exact Ht; try discriminate.
    intros q Hq. unfold open_position in Hq.
    destruct (tradingMode cfg); injection Hq as <-; cbn;
      rewrite Esig; exact Escr.
Qed.

Lemma run_loop_entered : entered_on_lateral sigs (run_loop cfg candles sigs).
Proof.
  unfold run_loop.
  apply (fold_left_seq_inv RunState _ (fun _ st => entered_on_lateral sigs st)
           (length candles) 0 (run_init cfg)).
  - split; cbn; [intros t [] | discriminate].
  - intros i st _. apply run_step_entered.
Qed.

Lemma forced_close_entered (st : RunState) (t : Trade) :
  entered_on_lateral sigs st ->
  In t (rs_trades (forced_close cfg candles st)) ->
  is_lateral (nth (entryIndex t) sigs None) = true.
Proof.
  intros [Ht Hp]. unfold forced_close.
  destruct (rs_position st) as [p|] eqn:Epos; [|now apply Ht].
  destruct (0 <? length candles)%nat; [|now apply Ht].
  cbn [rs_trades]. intro Hin. snoc_cases Hin; [now apply Ht|].
  cbn. now apply Hp.
Qed.

Lemma run_step_exits (st : RunState) (i : nat) :
  (forall t, In t (rs_trades st) -> exit_reason cfg sigs t) ->
  forall t, In t (rs_trades (run_step cfg candles sigs st i)) ->
            exit_reason cfg sigs t.
Proof.
  intros H. unfold run_step.
  destruct (nth i sigs None) as [s|] eqn:Esig; [|exact H].
  cbn [rs_position].
  destruct (rs_position st) as [p|].
  - destruct (negb (screening s) || holdingElapsed cfg i (Position.entryIndex p))
      eqn:Eexit; [|exact H].
    cbn [exit_position rs_trades]. intros t Hin.
    snoc_cases Hin; [now apply H|].
    exists s. cbn. split; [exact Esig|].
    apply orb_true_iff in Eexit as [E|E]; [left | now right].
    now apply negb_true_iff in E.
  - destruct (screening s); exact H.
Qed.

Lemma run_loop_exits (t : Trade) :
  In t (rs_trades (run_loop cfg candles sigs)) -> exit_reason cfg sigs t.
Proof.
  revert t. unfold run_loop.
  apply (fold_left_seq_inv RunState _
           (fun _ st => forall t, In t (rs_trades st) -> exit_reason cfg sigs t)
           (length candles) 0 (run_init cfg)).
  - intros t [].
  - intros i st _. apply run_step_exits.
Qed.

(** The forced close pushes at most one trade, at the end of the list. *)
Lemma forced_close_trades (st : RunState) :
  rs_trades (forced_close cfg candles st) = rs_trades st
  \/ exists t, rs_trades (forced_close cfg candles st) = rs_trades st ++ [t].
Proof.
  unfold forced_close. destruct (rs_position st) as [p|]; [|now left].
  destruct (0 <? length candles)%nat; [|now left].
  right. eexists. reflexivity.
Qed.

End EntriesAndExits.

(** X6. Every trade of [run] was entered on a candle of the series, at or
    after index [2 * period], whose screening signal is present and lateral:
    its ADX is not 0 and at most [pADXMaxLateral]. *)
Theorem run_entry_on_lateral (strategy : ADXScreeningParams)
    (cfg : BacktestConfig) (candles : list Candle) (t : Trade) :
  In t (trades (run strategy cfg candles)) ->
  exists s, screen strategy candles (entryIndex t) = Some s
            /\ screening s = true
            /\ adxValue s <= pADXMaxLateral strategy
            /\ ~ adxValue s == 0
            /\ (pADXPeriodo strategy * 2 <= entryIndex t < length candles)%nat.
Proof.
  unfold run, calculateMetrics; cbn [trades]. intro Hin.
  apply (forced_close_entered cfg candles (screenAll strategy candles)) in Hin;
    [|apply run_loop_entered].
  apply is_lateral_some in Hin as (s & Es & Hs).
  pose proof (nth_signal_in_range _ _ _ Es) as Hlt.
  rewrite screenAll_length in Hlt.
  rewrite nth_screenAll in Es by exact Hlt.
  destruct (screen_some _ _ _ _ Es) as (Hge & _ & Hthr & Hnz & _).
  exists s. repeat split; try assumption. now apply Hthr.
Qed.

Lemma run_entry_on_lateral_witness :
  exists s,
    screen sample_strategy sample_candles
      (entryIndex (nth 0 (trades (run sample_strategy default_config sample_candles))
                     trade0)) = Some s
    /\ screening s = true.
Proof.
  destruct (run_entry_on_lateral sample_strategy default_config sample_candles
              (nth 0 (trades (run sample_strategy default_config sample_candles))
                 trade0))
    as (s & Es & Hs & _).
  - vm_compute. left. reflexivity.
  - exists s. split; assumption.
Defined.

(** X7. Every trade of [run] but the last was closed inside the loop, on a
    candle whose screening signal is present and either not lateral or
    reached once the configured holding period had elapsed; the last trade
    alone can come from the forced close. *)
Theorem run_exit_reason (strategy : ADXScreeningParams)
    (cfg : BacktestConfig) (candles : list Candle) (k : nat) (t : Trade) :
  nth_error (trades (run strategy cfg candles)) k = Some t ->
  (S k < length (trades (run strategy cfg candles)))%nat ->
  exists s, screen strategy candles (exitIndex t) = Some s
            /\ (screening s = false
                \/ exists H, maxHoldingPeriod cfg = Some H
                             /\ (0 < H <= exitIndex t - entryIndex t)%nat).
Proof.
  unfold run, calculateMetrics; cbn [trades]. intros Ek Hk.
  assert (Hin : In t (rs_trades (run_loop cfg candles (screenAll strategy candles)))).
  { destruct (forced_close_trades cfg candles
                (run_loop cfg candles (screenAll strategy candles)))
      as [E|[t' E]]; rewrite E in Ek, Hk.
    - now apply nth_error_In in Ek.
    - rewrite length_app in Hk. cbn [length] in Hk.
      rewrite nth_error_app1 in Ek by lia. now apply nth_error_In in Ek. }
  apply run_loop_exits in Hin. destruct Hin as (s & Es & Hwhy).
  pose proof (nth_signal_in_range _ _ _ Es) as Hlt.
  rewrite screenAll_length in Hlt.
  rewrite nth_screenAll in Es by exact Hlt.
  exists s. split; [exact Es|].
  destruct Hwhy as [E|E]; [now left | right].
  now apply holdingElapsed_true.
Qed.

Lemma run_exit_reason_witness :
  exists s,
    screen sample_strategy sample_candles
      (exitIndex (nth 0 (trades (run sample_strategy default_config sample_candles))
                    trade0)) = Some s.
Proof.
  destruct (run_exit_reason sample_strategy default_config sample_candles 0
              (nth 0 (trades (run sample_strategy default_config sample_candles))
                 trade0))
    as (s & Es & _).
  - vm_compute. reflexivity.
  - vm_compute. lia.
  - exists s. exact Es.
Defined.

(** ** What a trade records *)

Lemma close_trade_consistent cfg candles capital position exitIdx :
  trade_consistent cfg candles (close_trade cfg candles capital position exitIdx).
Proof.
  unfold trade_consistent, close_trade. cbn.
  destruct (Position.type position); repeat split; reflexivity.
Qed.

Lemma close_trade_pnl cfg candles capital capital' position exitIdx :
  capital == capital' ->
  pnl (close_trade cfg candles capital position exitIdx)
  == capital' * positionSize cfg
     * pnlPercent (close_trade cfg candles capital position exitIdx).
Proof.
  intro E. unfold close_trade. cbn [pnl pnlPercent].
  generalize (match Position.type position with
              | long =>
                  (match Position.type position with
                   | long => close (candle_at candles exitIdx) * (1 - slippage cfg)
                   | short => close (candle_at candles exitIdx) * (1 + slippage cfg)
                   end - Position.entryPrice position)
                  / Position.entryPrice position
              | short =>
                  (Position.entryPrice position
                   - match Position.type position with
                     | long => close (candle_at candles exitIdx) * (1 - slippage cfg)
                     | short => close (candle_at candles exitIdx) * (1 + slippage cfg)
                     end)
                  / Position.entryPrice position
              end - commission cfg * 2).
  intro pct. now rewrite E.
Qed.

Lemma compounded_snoc cfg (ts : list Trade) (t : Trade) :
  compounded cfg ts ->
  pnl t == (initialCapital cfg + reduce_pnl ts) * positionSize cfg * pnlPercent t ->
  compounded cfg (ts ++ [t]).
Proof.
  intros Hts Ht k t' Ek.
  destruct (Nat.lt_ge_cases k (length ts)) as [Hlt|Hge].
  - rewrite nth_error_app1 in Ek by exact Hlt.
    rewrite firstn_app. replace (k - length ts)%nat with 0%nat by lia.
    cbn [firstn]. rewrite app_nil_r. now apply Hts.
  - rewrite nth_error_app2 in Ek by exact Hge.
    destruct (k - length ts)%nat as [|d] eqn:Ed.
    + cbn in Ek. injection Ek as <-.
      replace k with (length ts + 0)%nat by lia.
      rewrite firstn_app_2. cbn [firstn]. rewrite app_nil_r. exact Ht.
    + destruct d; discriminate.
Qed.

Section TradeRecords.

Variable cfg : BacktestConfig.
Variable candles : list Candle.
Variable sigs : list (option ScreeningResult).

Lemma run_step_consistent (st : RunState) (i : nat) :
  (forall t, In t (rs_trades st) -> trade_consistent cfg candles t) ->
  forall t, In t (rs_trades (run_step cfg candles sigs st i)) ->
            trade_consistent cfg candles t.
Proof.
  intros H. unfold run_step.
  destruct (nth i sigs None) as [s|]; [|exact H].
  cbn [rs_position].
  destruct (rs_position st) as [p|].
  - destruct (negb (screening s) || holdingElapsed cfg i (Position.entryIndex p));
      [|exact H].
    cbn [exit_position rs_trades]. intros t Hin.
    snoc_cases Hin; [now apply H | apply close_trade_consistent].
  - destruct (screening s); exact H.
Qed.

Lemma run_loop_consistent (t : Trade) :
  In t (rs_trades (run_loop cfg candles sigs)) -> trade_consistent cfg candles t.
Proof.
  revert t. unfold run_loop.
  apply (fold_left_seq_inv RunState _
           (fun _ st => forall t, In t (rs_trades st) ->
                                  trade_consistent cfg candles t)
           (length candles) 0 (run_init cfg)).
  - intros t [].
  - intros i st _. apply run_step_consistent.
Qed.

Lemma forced_close_consistent (st : RunState) :
  (forall t, In t (rs_trades st) -> trade_consistent cfg candles t) ->
  forall t, In t (rs_trades (forced_close cfg candles st)) ->
            trade_consistent cfg candles t.
Proof.
  intros H. unfold forced_close.
  destruct (rs_position st) as [p|]; [|exact H].
  destruct (0 <? length candles)%nat; [|exact H].
  cbn [rs_trades]. intros t Hin.
  snoc_cases Hin; [now apply H | apply close_trade_consistent].
Qed.

Lemma run_step_compounded (st : RunState) (i : nat) :
  reconciled cfg st /\ compounded cfg (rs_trades st) ->
  compounded cfg (rs_trades (run_step cfg candles sigs st i)).
Proof.
  intros [Hrec Hcomp]. unfold run_step.
  destruct (nth i sigs None) as [s|]; [|exact Hcomp].
  cbn [rs_position].
  destruct (rs_position st) as [p|].
  - destruct (negb (screening s) || holdingElapsed cfg i (Position.entryIndex p));
      [|exact Hcomp].
    cbn [exit_position rs_trades rs_capital].
    apply compounded_snoc; [exact Hcomp|].
    apply close_trade_pnl. exact Hrec.
  - destruct (screening s); exact Hcomp.
Qed.

Lemma run_loop_compounded :
  reconciled cfg (run_loop cfg candles sigs)
  /\ compounded cfg (rs_trades (run_loop cfg candles sigs)).
Proof.
  unfold run_loop.
  apply (fold_left_seq_inv RunState _
           (fun _ st => reconciled cfg st /\ compounded cfg (rs_trades st))
           (length candles) 0 (run_init cfg)).
  - split.
    + unfold reconciled, run_init, reduce_pnl; simpl. ring.
    + intros k t Ek. destruct k; discriminate.
  - intros i st _ H. split.
    + apply run_step_reconciled. apply H.
    + now apply run_step_compounded.
Qed.

Lemma forced_close_compounded (st : RunState) :
  reconciled cfg st /\ compounded cfg (rs_trades st) ->
  compounded cfg (rs_trades (forced_close cfg candles st)).
Proof.
  intros [Hrec Hcomp]. unfold forced_close.
  destruct (rs_position st) as [p|]; [|exact Hcomp].
  destruct (0 <? length candles)%nat; [|exact Hcomp].
  cbn [rs_trades]. apply compounded_snoc; [exact Hcomp|].
  apply close_trade_pnl. exact Hrec.
Qed.

End TradeRecords.

(** X8. A trade of [run] records its two candles: [entryTime] and [exitTime]
    are their timestamps, the exit price is the exit candle's close less
    slippage for a long and plus slippage for a short, and [pnlPercent] is
    the return on the entry price, by side, less twice the commission. *)
Theorem run_trade_record (strategy : ADXScreeningParams)
    (cfg : BacktestConfig) (candles : list Candle) (t : Trade) :
  In t (trades (run strategy cfg candles)) ->
  entryTime t = timestamp (candle_at candles (entryIndex t))
  /\ exitTime t = timestamp (candle_at candles (exitIndex t))
  /\ exitPrice t
     = match type t with
       | long => close (candle_at candles (exitIndex t)) * (1 - slippage cfg)
       | short => close (candle_at candles (exitIndex t)) * (1 + slippage cfg)
       end
  /\ pnlPercent t
     = match type t with
       | long => (exitPrice t - entryPrice t) / entryPrice t
       | short => (entryPrice t - exitPrice t) / entryPrice t
       end - commission cfg * 2.
Proof.
  unfold run, calculateMetrics; cbn [trades]. revert t.
  apply (forced_close_consistent cfg candles).
  apply run_loop_consistent.
Qed.

Lemma run_trade_record_witness :
  exitPrice (nth 0 (trades (run sample_strategy default_config sample_candles)) trade0)
  = match type (nth 0 (trades (run sample_strategy default_config sample_candles))
                  trade0) with
    | long =>
        close (candle_at sample_candles
                 (exitIndex (nth 0 (trades (run sample_strategy default_config
                                              sample_candles)) trade0)))
        * (1 - slippage default_config)
    | short =>
        close (candle_at sample_candles
                 (exitIndex (nth 0 (trades (run sample_strategy default_config
                                              sample_candles)) trade0)))
        * (1 + slippage default_config)
    end.
Proof.
  assert (Hin : In (nth 0 (trades (run sample_strategy default_config sample_candles))
                      trade0)
                  (trades (run sample_strategy default_config sample_candles))).
  { vm_compute. left. reflexivity. }
  exact (proj1 (proj2 (proj2 (run_trade_record sample_strategy default_config
                                sample_candles _ Hin)))).
Defined.

(** X9. The capital compounds trade by trade: the [pnl] of each trade of [run]
    is its [pnlPercent] on the [positionSize] share of the initial capital
    plus the [pnl] of the trades before it. *)
Theorem run_pnl_compounds (strategy : ADXScreeningParams)
    (cfg : BacktestConfig) (candles : list Candle) (k : nat) (t : Trade) :
  nth_error (trades (run strategy cfg candles)) k = Some t ->
  pnl t == (initialCapital cfg
            + Qsum (map pnl (firstn k (trades (run strategy cfg candles)))))
           * positionSize cfg * pnlPercent t.
Proof.
  unfold run, calculateMetrics; cbn [trades]. intro Ek.
  rewrite <- reduce_pnl_Qsum.
  apply (forced_close_compounded cfg candles); [|exact Ek].
  apply run_loop_compounded.
Qed.

Lemma run_pnl_compounds_witness :
  pnl (nth 1 (trades (run sample_strategy default_config sample_candles)) trade0)
  == (initialCapital default_config
      + Qsum (map pnl (firstn 1 (trades (run sample_strategy default_config
                                           sample_candles)))))
     * positionSize default_config
     * pnlPercent (nth 1 (trades (run sample_strategy default_config sample_candles))
                     trade0).
Proof.
  assert (Ek : nth_error (trades (run sample_strategy default_config sample_candles)) 1
               = Some (nth 1 (trades (run sample_strategy default_config
                                        sample_candles)) trade0)).
  { vm_compute. reflexivity. }
  exact (run_pnl_compounds sample_strategy default_config sample_candles 1 _ Ek).
Defined.

(** ** The reported drawdown *)

Lemma run_loop_drawdown cfg candles sigs :
  drawdown_tracked cfg (run_loop cfg candles sigs).
Proof.
  unfold run_loop.
  apply (fold_left_seq_inv RunState _ (fun _ st => drawdown_tracked cfg st)
           (length candles) 0 (run_init cfg)).
  - unfold drawdown_tracked; cbn. repeat split; reflexivity.
  - intros i st _. apply run_step_drawdown.
Qed.

Lemma run_step_drawdown_nonneg cfg candles sigs st i :
  0 <= rs_maxDrawdown st -> 0 <= rs_maxDrawdown (run_step cfg candles sigs st i).
Proof.
  intro H. unfold run_step.
  destruct (nth i sigs None) as [s|]; [|exact H].
  cbn [rs_position].
  destruct (rs_position st) as [p|].
  - destruct (negb (screening s) || holdingElapsed cfg i (Position.entryIndex p));
      [|exact H].
    cbn [exit_position rs_maxDrawdown rs_capital rs_peakCapital].
    match goal with
    | |- 0 <= (if Qgtb ?d ?m then _ else _) => destruct (Qgtb d m) eqn:E
    end; [|exact H].
    apply Qgtb_lt in E. apply Qlt_le_weak. eapply Qle_lt_trans; eassumption.
  - destruct (screening s); exact H.
Qed.

Lemma run_loop_drawdown_nonneg cfg candles sigs :
  0 <= rs_maxDrawdown (run_loop cfg candles sigs).
Proof.
  unfold run_loop.
  apply (fold_left_seq_inv RunState _ (fun _ st => 0 <= rs_maxDrawdown st)
           (length candles) 0 (run_init cfg)).
  - apply Qle_refl.
  - intros i st _. apply run_step_drawdown_nonneg.
Qed.

Lemma forced_close_maxDrawdown cfg candles st :
  rs_maxDrawdown (forced_close cfg candles st) = rs_maxDrawdown st.
Proof.
  unfold forced_close. destruct (rs_position st) as [p|]; [|reflexivity].
  now destruct (0 <? length candles)%nat.
Qed.

(** X10. The [maxDrawdown] that [run] reports is never negative and never
    more than the drawdown rule gives over the trades of the result: the
    forced close can only leave a drawdown out. *)
Theorem run_maxDrawdown_bounds (strategy : ADXScreeningParams)
    (cfg : BacktestConfig) (candles : list Candle) :
  0 <= maxDrawdown (run strategy cfg candles)
  /\ maxDrawdown (run strategy cfg candles)
     <= spec_maxDrawdown (initialCapital cfg) (trades (run strategy cfg candles)).
Proof.
  unfold run, calculateMetrics; cbn [maxDrawdown trades].
  rewrite forced_close_maxDrawdown.
  split; [apply run_loop_drawdown_nonneg|].
  pose proof (run_loop_drawdown cfg candles (screenAll strategy candles)) as Hloop.
  unfold drawdown_tracked in Hloop. unfold spec_maxDrawdown.
  destruct (forced_close_trades cfg candles
              (run_loop cfg candles (screenAll strategy candles)))
    as [E|[t E]]; rewrite E.
  - destruct (fold_left drawdown_after_close _ _) as [[running peak] maxDD].
    cbn [snd]. destruct Hloop as (_ & _ & Hd). rewrite Hd. apply Qle_refl.
  - rewrite fold_left_app. cbn [fold_left].
    destruct (fold_left drawdown_after_close _ _) as [[running peak] maxDD].
    cbn [drawdown_after_close snd]. destruct Hloop as (_ & _ & Hd).
    rewrite Hd. apply Q.le_max_l.
Qed.

(** ** Percent return of a run *)

(** X11. With a non-zero initial capital the [totalPnLPercent] field of [run]
    is, in exact arithmetic, the reported [totalPnL] as a percentage of the
    initial capital. *)
Theorem run_totalPnLPercent (strategy : ADXScreeningParams)
    (cfg : BacktestConfig) (candles : list Candle) :
  ~ initialCapital cfg == 0 ->
  totalPnLPercent (run strategy cfg candles)
  == totalPnL (run strategy cfg candles) / initialCapital cfg * 100.
Proof.
  intros _.
  pose proof (forced_close_reconciled cfg candles _
                (run_loop_reconciled cfg candles (screenAll strategy candles))) as H.
  unfold reconciled in H.
  unfold run, calculateMetrics; cbn [totalPnLPercent totalPnL].
  set (st := forced_close cfg candles
               (run_loop cfg candles (screenAll strategy candles))) in *.
  assert (E : rs_capital st - initialCapital cfg == reduce_pnl (rs_trades st)).
  { rewrite H. ring. }
  now rewrite E.
Qed.

Lemma run_totalPnLPercent_witness :
  totalPnLPercent (run sample_strategy default_config sample_candles)
  == totalPnL (run sample_strategy default_config sample_candles)
     / initialCapital default_config * 100.
Proof.
  assert (Hic : ~ initialCapital default_config == 0) by (vm_compute; discriminate).
  exact (run_totalPnLPercent sample_strategy default_config sample_candles Hic).
Defined.

(** ** Runs without a lateral signal *)

Lemma run_step_quiet cfg candles sigs i :
  is_lateral (nth i sigs None) = false ->
  run_step cfg candles sigs (run_init cfg) i = run_init cfg.
Proof.
  intro H. unfold run_step.
  destruct (nth i sigs None) as [s|]; [|reflexivity].
  cbn in *. rewrite H. reflexivity.
Qed.

Lemma run_quiet strategy cfg candles :
  (forall i, is_lateral (nth i (screenAll strategy candles) None) = false) ->
  run strategy cfg candles = calculateMetrics cfg [] (initialCapital cfg) 0 0.
Proof.
  intro Hquiet.
  assert (Hloop : run_loop cfg candles (screenAll strategy candles) = run_init cfg).
  { unfold run_loop.
    apply (fold_left_seq_inv RunState _ (fun _ st => st = run_init cfg)
             (length candles) 0 (run_init cfg)); [reflexivity|].
    intros i st _ ->. apply run_step_quiet. apply Hquiet. }
  unfold run. rewrite Hloop. reflexivity.
Qed.

Lemma screenAll_short strategy candles i :
  (length candles < pADXPeriodo strategy * 2)%nat ->
  nth i (screenAll strategy candles) None = None.
Proof.
  intro Hshort.
  destruct (Nat.lt_ge_cases i (length candles)) as [Hlt|Hge].
  - rewrite nth_screenAll by exact Hlt. unfold screen.
    destruct (Nat.ltb_spec i (pADXPeriodo strategy * 2)) as [_|Hc]; [reflexivity | lia].
  - apply nth_overflow. now rewrite screenAll_length.
Qed.

(** X12. On fewer than [2 * period] candles, the empty series included, no
    index has a screening signal and [run] trades nothing: the trade list
    is empty, the signal count is 0, the final capital is the initial
    capital, and the drawdown and profit factor are 0. *)
Theorem run_short_series (strategy : ADXScreeningParams)
    (cfg : BacktestConfig) (candles : list Candle) :
  (length candles < pADXPeriodo strategy * 2)%nat ->
  (forall i, nth i (screenAll strategy candles) None = None)
  /\ trades (run strategy cfg candles) = []
  /\ screeningSignals (run strategy cfg candles) = 0%nat
  /\ finalCapital (run strategy cfg candles) = initialCapital cfg
  /\ totalPnL (run strategy cfg candles) = 0
  /\ maxDrawdown (run strategy cfg candles) = 0
  /\ profitFactor (run strategy cfg candles) = Finite 0.
Proof.
  intro Hshort.
  split; [intro i; now apply screenAll_short|].
  rewrite run_quiet; [repeat split|].
  intro i. now rewrite screenAll_short.
Qed.

Lemma run_short_series_witness :
  trades (run sample_strategy default_config (firstn 3 sample_candles)) = []
  /\ finalCapital (run sample_strategy default_config (firstn 3 sample_candles))
     = initialCapital default_config.
Proof.
  assert (Hshort : (length (firstn 3 sample_candles)
                    < pADXPeriodo sample_strategy * 2)%nat) by (cbn; lia).
  destruct (run_short_series sample_strategy default_config
              (firstn 3 sample_candles) Hshort) as (_ & Ht & _ & Hc & _).
  split; assumption.
Defined.

(** ** A market that does not move *)

Lemma fold_Qplus_zero (xs : list Q) (a : Q) :
  a == 0 -> (forall x, In x xs -> x == 0) -> fold_left Qplus xs a == 0.
Proof.
  revert a. induction xs as [|x xs IH]; intros a Ha Hxs; [exact Ha|].
  cbn. apply IH.
  - rewrite Ha, (Hxs x) by now left. reflexivity.
  - intros y Hy. apply Hxs. now right.
Qed.

Lemma in_slice_in (A : Type) (xs : list A) (start stop : nat) (x : A) :
  In x (slice xs start stop) -> In x xs.
Proof.
  unfold slice. intro H.
  apply (in_skipn_in A start). revert H.
  generalize (skipn start xs) as ys. intros ys H.
  rewrite <- (firstn_skipn (stop - start) ys). apply in_or_app. now left.
Qed.

Lemma mean_zero (xs : list Q) (n : nat) :
  (forall x, In x xs -> x == 0) -> reduce_sum xs / Qnat n == 0.
Proof.
  intro Hxs. unfold reduce_sum.
  rewrite (fold_Qplus_zero xs 0) by (reflexivity || exact Hxs).
  unfold Qdiv. ring.
Qed.

Lemma nth_zero (xs : list Q) (i : nat) :
  (forall x, In x xs -> x == 0) -> nth i xs 0 == 0.
Proof.
  intro Hxs. destruct (Nat.lt_ge_cases i (length xs)) as [Hlt|Hge].
  - apply Hxs. now apply nth_In.
  - rewrite nth_overflow by exact Hge. reflexivity.
Qed.

(** One iteration on a series whose true ranges are all 0. *)
Lemma adx_step_still (period i : nat) (tr pd md : list Q) (st : AdxState) :
  (forall x, In x tr -> x == 0) ->
  still_state st ->
  still_state (fst (adx_step period tr pd md st i))
  /\ adx (snd (adx_step period tr pd md st i)) == 0.
Proof.
  intros Htr (Hsm & Hsdx & Hdx).
  unfold adx_step. cbv zeta.
  set (sm := match smoothed st with
             | Some s => _
             | None => _
             end).
  assert (Ezero : smoothedTR sm == 0).
  { subst sm. destruct (smoothed st) as [s|]; cbn [smoothedTR].
    - rewrite (Hsm s eq_refl), (nth_zero tr i Htr). unfold Qdiv. ring.
    - apply mean_zero. intros x Hx. apply Htr. now apply in_slice_in in Hx. }
  rewrite (Qgtb_zero _ Ezero).
  change (Qgtb (0 + 0) 0) with false. cbv iota.
  assert (Hdxs : forall d, In d (dxValues st ++ [0]) -> d == 0).
  { intros d Hin. apply in_app_or in Hin as [Hin|[<-|[]]];
      [now apply Hdx | reflexivity]. }
  destruct (period <=? length (dxValues st ++ [0%Q]))%nat;
    cbn [fst snd smoothed smoothedDX dxValues adx].
  - assert (Esdx : match smoothedDX st with
                   | Some prevDX => (prevDX * (Qnat period - 1) + 0) / Qnat period
                   | None =>
                       reduce_sum
                         (skipn (length (dxValues st ++ [0]) - period)
                            (dxValues st ++ [0])) / Qnat period
                   end == 0).
    { destruct (smoothedDX st) as [prev|].
      - rewrite (Hsdx prev eq_refl). unfold Qdiv. ring.
      - apply mean_zero. intros x Hx. apply Hdxs. now apply in_skipn_in in Hx. }
    split; [|exact Esdx].
    split; [|split].
    + intros s Es. injection Es as <-. exact Ezero.
    + intros v Ev. injection Ev as <-. exact Esdx.
    + exact Hdxs.
  - split; [|reflexivity].
    split; [|split].
    + intros s Es. injection Es as <-. exact Ezero.
    + exact Hsdx.
    + exact Hdxs.
Qed.

Lemma adx_loop_still (period : nat) (tr pd md : list Q) (idx : list nat) :
  (forall x, In x tr -> x == 0) ->
  forall acc : AdxState * list (option ADXResult),
  still_state (fst acc) ->
  (forall i r, nth i (snd acc) None = Some r -> adx r == 0) ->
  forall i r,
    nth i (snd (fold_left (adx_body period tr pd md) idx acc)) None = Some r ->
    adx r == 0.
Proof.
  intro Htr. induction idx as [|j idx IH]; intros [st res] Hst Hres; [exact Hres|].
  cbn [fold_left]. rewrite adx_body_pair.
  destruct (adx_step_still period j tr pd md st Htr Hst) as [Hst' Hadx].
  apply IH; cbn [fst snd]; [exact Hst'|].
  intros i r. rewrite nth_set_nth.
  destruct (j =? i)%nat; [|apply Hres].
  intro E. injection E as <-. exact Hadx.
Qed.

Lemma calculateTrueRange_still (candles : list Candle) (i : nat) :
  still candles -> (i < length candles)%nat ->
  calculateTrueRange candles i == 0.
Proof.
  intros [price Hall] Hi. unfold calculateTrueRange, candle_at.
  destruct i as [|j].
  - destruct (Hall (nth 0 candles candle0)) as (Hh & Hl & _);
      [apply nth_In; lia|].
    rewrite Hh, Hl. ring.
  - destruct (Hall (nth (S j) candles candle0)) as (Hh & Hl & _);
      [now apply nth_In|].
    destruct (Hall (nth j candles candle0)) as (_ & _ & Hc);
      [apply nth_In; lia|].
    rewrite Hh, Hl, Hc.
    assert (E : price - price == 0) by ring.
    rewrite E. reflexivity.
Qed.

(** On a still market every sample of the indicator has an ADX of 0. *)
Lemma calculateADX_still (candles : list Candle) (period i : nat) (r : ADXResult) :
  still candles ->
  nth i (calculateADX candles period) None = Some r -> adx r == 0.
Proof.
  intro Hstill. unfold calculateADX.
  destruct (length candles <? period * 2)%nat.
  { rewrite nth_repeat. discriminate. }
  apply adx_loop_still.
  - intros x Hx. apply in_map_iff in Hx as (j & <- & Hj).
    apply in_seq in Hj. apply calculateTrueRange_still; [exact Hstill | lia].
  - split; [|split]; cbn; try discriminate. intros d [].
  - cbn [snd]. intros k r'. rewrite nth_repeat. discriminate.
Qed.

Lemma screenAll_still (strategy : ADXScreeningParams) (candles : list Candle)
    (i : nat) :
  still candles -> nth i (screenAll strategy candles) None = None.
Proof.
  intro Hstill.
  destruct (Nat.lt_ge_cases i (length candles)) as [Hlt|Hge].
  - rewrite nth_screenAll, screen_full_series by exact Hlt.
    destruct (i <? pADXPeriodo strategy * 2)%nat; [reflexivity|].
    destruct (nth i (calculateADX candles (pADXPeriodo strategy)) None) as [r|] eqn:E;
      [|reflexivity].
    apply calculateADX_still in E; [|exact Hstill].
    apply Qeq_bool_iff in E. now rewrite E.
  - apply nth_overflow. now rewrite screenAll_length.
Qed.

(** X13. On a market that does not move (every candle with high, low and
    close at one price) the ADX reads 0 wherever it is computed, [screen]
    takes that for a missing value and returns no signal at any index, and
    [run] trades nothing.  The period is positive: with period 0 the source
    divides 0 by 0. *)
Theorem run_still_market (strategy : ADXScreeningParams)
    (cfg : BacktestConfig) (candles : list Candle) :
  (0 < pADXPeriodo strategy)%nat -> still candles ->
  (forall i r, nth i (calculateADX candles (pADXPeriodo strategy)) None = Some r ->
               adx r == 0)
  /\ (forall i, nth i (screenAll strategy candles) None = None)
  /\ trades (run strategy cfg candles) = []
  /\ screeningSignals (run strategy cfg candles) = 0%nat
  /\ finalCapital (run strategy cfg candles) = initialCapital cfg.
Proof.
  intros _ Hstill.
  split; [intros i r; now apply calculateADX_still|].
  split; [intro i; now apply screenAll_still|].
  rewrite run_quiet; [repeat split|].
  intro i. now rewrite screenAll_still.
Qed.

Lemma run_still_market_witness :
  trades (run sample_strategy default_config still_candles) = []
  /\ finalCapital (run sample_strategy default_config still_candles)
     = initialCapital default_config.
Proof.
  assert (Hp : (0 < pADXPeriodo sample_strategy)%nat) by (cbn; lia).
  assert (Hstill : still still_candles).
  { exists (12 # 1). intros c Hin. cbn in Hin.
    repeat (destruct Hin as [<-|Hin]; [repeat split; reflexivity|]).
    destruct Hin. }
  destruct (run_still_market sample_strategy default_config still_candles Hp Hstill)
    as (_ & _ & Ht & _ & Hc).
  split; assumption.
Defined.

(** ** The scale of the indicator *)

Lemma plusDMValue_nonneg (candles : list Candle) (i : nat) :
  0 <= plusDMValue candles i.
Proof.
  unfold plusDMValue. destruct i as [|j]; [apply Qle_refl|]. cbv zeta.
  match goal with
  | |- 0 <= (if ?b then _ else _) => destruct b eqn:E
  end; [|apply Qle_refl].
  apply andb_true_iff in E as [_ E]. apply Qgtb_lt in E. now apply Qlt_le_weak.
Qed.

Lemma minusDMValue_nonneg (candles : list Candle) (i : nat) :
  0 <= minusDMValue candles i.
Proof.
  unfold minusDMValue. destruct i as [|j]; [apply Qle_refl|]. cbv zeta.
  match goal with
  | |- 0 <= (if ?b then _ else _) => destruct b eqn:E
  end; [|apply Qle_refl].
  apply andb_true_iff in E as [_ E]. apply Qgtb_lt in E. now apply Qlt_le_weak.
Qed.

Lemma nth_nonneg (xs : list Q) (i : nat) :
  (forall x, In x xs -> 0 <= x) -> 0 <= nth i xs 0.
Proof.
  intro Hxs. destruct (Nat.lt_ge_cases i (length xs)) as [Hlt|Hge].
  - apply Hxs. now apply nth_In.
  - rewrite nth_overflow by exact Hge. apply Qle_refl.
Qed.

Lemma Qnat_ge_1 (n : nat) : (1 <= n)%nat -> 0 <= Qnat n - 1.
Proof.
  intro H. unfold Qnat, Qle, Qminus, Qplus, Qopp; cbn. lia.
Qed.

Lemma Qnat_succ (n : nat) : Qnat (S n) == Qnat n + 1.
Proof.
  unfold Qnat. rewrite Nat2Z.inj_succ, <- Z.add_1_r, inject_Z_plus. reflexivity.
Qed.

Lemma wilder_range (prev x bound : Q) (n : nat) :
  (1 <= n)%nat -> 0 <= prev -> prev <= bound -> 0 <= x -> x <= bound ->
  0 <= (prev * (Qnat n - 1) + x) / Qnat n
  /\ (prev * (Qnat n - 1) + x) / Qnat n <= bound.
Proof.
  intros Hn Hp0 Hp1 Hx0 Hx1.
  pose proof (Qnat_ge_1 n Hn) as Hq.
  assert (Hpos : 0 < Qnat n) by (apply Qnat_pos; lia).
  assert (Hlo : 0 <= prev * (Qnat n - 1)) by now apply Qmult_le_0_compat.
  assert (Hhi : prev * (Qnat n - 1) <= bound * (Qnat n - 1))
    by now apply Qmult_le_compat_r.
  split.
  - apply Qle_shift_div_l; [exact Hpos|]. lra.
  - apply Qle_shift_div_r; [exact Hpos|]. lra.
Qed.

Lemma fold_Qplus_le (xs : list Q) (a bound : Q) :
  (forall x, In x xs -> x <= bound) ->
  fold_left Qplus xs a <= a + bound * Qnat (length xs).
Proof.
  revert a. induction xs as [|x xs IH]; intros a Hxs.
  - cbn [fold_left length]. change (Qnat 0) with 0. lra.
  - cbn [fold_left length]. rewrite Qnat_succ.
    eapply Qle_trans; [apply IH; intros y Hy; apply Hxs; now right|].
    assert (x <= bound) by (apply Hxs; now left). lra.
Qed.

Lemma mean_range (xs : list Q) (n : nat) (bound : Q) :
  (0 < n)%nat -> length xs = n ->
  (forall x, In x xs -> 0 <= x /\ x <= bound) ->
  0 <= reduce_sum xs / Qnat n /\ reduce_sum xs / Qnat n <= bound.
Proof.
  intros Hn Hlen Hxs. split.
  - apply mean_nonneg; [exact Hn|]. intros x Hx. now apply Hxs.
  - apply Qle_shift_div_r; [now apply Qnat_pos|].
    unfold reduce_sum. rewrite <- Hlen.
    eapply Qle_trans; [apply (fold_Qplus_le xs 0 bound)|lra].
    intros x Hx. now apply Hxs.
Qed.

Lemma di_nonneg (m t : Q) :
  0 <= m -> 0 <= (if Qgtb t 0 then m / t * 100 else 0).
Proof.
  intro Hm. destruct (Qgtb t 0) eqn:E; [|apply Qle_refl].
  apply Qgtb_lt in E.
  apply Qmult_le_0_compat; [|discriminate].
  apply Qle_shift_div_l; [exact E|]. now rewrite Qmult_0_l.
Qed.

Lemma dx_le_100 (p m : Q) :
  0 <= p -> 0 <= m ->
  (if Qgtb (p + m) 0 then Qabs (p - m) / (p + m) * 100 else 0) <= 100.
Proof.
  intros Hp Hm. destruct (Qgtb (p + m) 0) eqn:E; [|discriminate].
  apply Qgtb_lt in E.
  assert (Habs : Qabs (p - m) <= p + m).
  { apply Qabs_Qle_condition. split; lra. }
  assert (Hratio : Qabs (p - m) / (p + m) <= 1).
  { apply Qle_shift_div_r; [exact E|]. lra. }
  lra.
Qed.

(** One iteration keeps the values on the indicator's scale. *)
Lemma adx_step_range (period i : nat) (tr pd md : list Q) (st : AdxState) :
  (1 <= period)%nat ->
  (forall x, In x pd -> 0 <= x) -> (forall x, In x md -> 0 <= x) ->
  adx_ranged period st ->
  adx_ranged period (fst (adx_step period tr pd md st i))
  /\ sample_ranged (snd (adx_step period tr pd md st i)).
Proof.
  intros Hp Hpd Hmd (Hsm & Hsdx & Hdx).
  unfold adx_step. cbv zeta.
  set (sm := match smoothed st with
             | Some s => _
             | None => _
             end).
  assert (Hplus : 0 <= smoothedPlusDM sm /\ 0 <= smoothedMinusDM sm).
  { subst sm. destruct (smoothed st) as [s|]; cbn [smoothedPlusDM smoothedMinusDM].
    - destruct (Hsm s eq_refl) as [H1 H2]. split.
      + apply (wilder_range _ _ (Qmax (smoothedPlusDM s) (nth i pd 0)));
          try assumption;
          [apply Q.le_max_l | now apply nth_nonneg | apply Q.le_max_r].
      + apply (wilder_range _ _ (Qmax (smoothedMinusDM s) (nth i md 0)));
          try assumption;
          [apply Q.le_max_l | now apply nth_nonneg | apply Q.le_max_r].
    - split; (apply mean_nonneg; [lia|]); intros x Hx;
        [apply Hpd | apply Hmd]; now apply in_slice_in in Hx. }
  destruct Hplus as [Hplus Hminus].
  set (pDI := if Qgtb (smoothedTR sm) 0
              then smoothedPlusDM sm / smoothedTR sm * 100 else 0).
  set (mDI := if Qgtb (smoothedTR sm) 0
              then smoothedMinusDM sm / smoothedTR sm * 100 else 0).
  assert (HpDI : 0 <= pDI) by now apply di_nonneg.
  assert (HmDI : 0 <= mDI) by now apply di_nonneg.
  set (dx := if Qgtb (pDI + mDI) 0
             then Qabs (pDI - mDI) / (pDI + mDI) * 100 else 0).
  assert (Hdx0 : 0 <= dx) by apply dx_nonneg.
  assert (Hdx1 : dx <= 100) by now apply dx_le_100.
  assert (Hdxs : forall d, In d (dxValues st ++ [dx]) -> 0 <= d /\ d <= 100).
  { intros d Hin. apply in_app_or in Hin as [Hin|[<-|[]]];
      [now apply Hdx | now split]. }
  destruct (period <=? length (dxValues st ++ [dx]))%nat eqn:E;
    cbn [fst snd smoothed smoothedDX dxValues adx plusDI minusDI].
  - apply Nat.leb_le in E.
    set (sdx := match smoothedDX st with
                | Some prevDX => _
                | None => _
                end).
    assert (Hsdx' : 0 <= sdx /\ sdx <= 100).
    { subst sdx. destruct (smoothedDX st) as [prev|].
      - destruct (Hsdx prev eq_refl) as [H0 H1]. now apply wilder_range.
      - apply mean_range; [lia | rewrite length_skipn; lia |].
        intros x Hx. apply Hdxs. now apply in_skipn_in in Hx. }
    split.
    + split; [|split]; [|intros v Ev; injection Ev as <-; exact Hsdx' | exact Hdxs].
      intros s Es. injection Es as <-. now split.
    + unfold sample_ranged; cbn [plusDI minusDI adx]. tauto.
  - split.
    + split; [|split]; [|exact Hsdx | exact Hdxs].
      intros s Es. injection Es as <-. now split.
    + unfold sample_ranged; cbn [plusDI minusDI adx].
      repeat split; try assumption; [apply Qle_refl | discriminate].
Qed.

Lemma adx_loop_range (period : nat) (tr pd md : list Q) (idx : list nat) :
  (1 <= period)%nat ->
  (forall x, In x pd -> 0 <= x) -> (forall x, In x md -> 0 <= x) ->
  forall acc : AdxState * list (option ADXResult),
  adx_ranged period (fst acc) ->
  (forall i r, nth i (snd acc) None = Some r -> sample_ranged r) ->
  forall i r,
    nth i (snd (fold_left (adx_body period tr pd md) idx acc)) None = Some r ->
    sample_ranged r.
Proof.
  intros Hp Hpd Hmd.
  induction idx as [|j idx IH]; intros [st res] Hst Hres; [exact Hres|].
  cbn [fold_left]. rewrite adx_body_pair.
  destruct (adx_step_range period j tr pd md st Hp Hpd Hmd Hst) as [Hst' Hr].
  apply IH; cbn [fst snd]; [exact Hst'|].
  intros i r. rewrite nth_set_nth.
  destruct (j =? i)%nat; [|apply Hres].
  intro E. injection E as <-. exact Hr.
Qed.

Lemma calculateADX_ranged (candles : list Candle) (period i : nat) (r : ADXResult) :
  (1 <= period)%nat ->
  nth i (calculateADX candles period) None = Some r -> sample_ranged r.
Proof.
  intro Hp. unfold calculateADX.
  destruct (length candles <? period * 2)%nat.
  { rewrite nth_repeat. discriminate. }
  apply adx_loop_range; try exact Hp.
  - intros x Hx. apply in_map_iff in Hx as (j & <- & _). apply plusDMValue_nonneg.
  - intros x Hx. apply in_map_iff in Hx as (j & <- & _). apply minusDMValue_nonneg.
  - split; [|split]; cbn; try discriminate. intros d [].
  - cbn [snd]. intros k r'. rewrite nth_repeat. discriminate.
Qed.

(** X14. The indicator stays on its scale. For a positive period and any
    candles, every sample of [calculateADX] has [plusDI] and [minusDI] that
    are not negative and an [adx] between 0 and 100; a screening signal
    carries an [adxValue] above 0 and at most 100. *)
Theorem calculateADX_scale (candles : list Candle) (period : nat) :
  (1 <= period)%nat ->
  (forall i r, nth i (calculateADX candles period) None = Some r ->
     0 <= plusDI r /\ 0 <= minusDI r /\ 0 <= adx r /\ adx r <= 100)
  /\ (forall maxLateral i s,
        (i < length candles)%nat ->
        screen (mkParams period maxLateral) candles i = Some s ->
        0 < adxValue s /\ adxValue s <= 100).
Proof.
  intro Hp. split.
  - intros i r E. exact (calculateADX_ranged candles period i r Hp E).
  - intros maxLateral i s Hi E.
    destruct (screen_some _ _ _ _ E) as (_ & _ & _ & Hnz & _).
    rewrite screen_full_series in E by exact Hi. cbn [pADXPeriodo pADXMaxLateral] in E.
    destruct (i <? period * 2)%nat; [discriminate|].
    destruct (nth i (calculateADX candles period) None) as [r|] eqn:Er;
      [|discriminate].
    destruct (calculateADX_ranged candles period i r Hp Er) as (_ & _ & H0 & H1).
    destruct (Qeq_bool (adx r) 0); [discriminate|].
    injection E as <-. cbn [adxValue] in *. split; [|exact H1].
    apply Qle_lt_or_eq in H0 as [Hlt|Heq]; [exact Hlt|].
    exfalso. apply Hnz. symmetry. exact Heq.
Qed.

Lemma calculateADX_scale_witness :
  exists r, nth 4 (calculateADX sample_candles 2) None = Some r
            /\ 0 <= adx r /\ adx r <= 100.
Proof.
  assert (Hp : (1 <= 2)%nat) by lia.
  pose proof (proj1 (calculateADX_scale sample_candles 2 Hp) 4%nat) as H.
  destruct (nth 4 (calculateADX sample_candles 2) None) as [r|] eqn:E.
  - exists r. split; [reflexivity|].
    destruct (H r eq_refl) as (_ & _ & H0 & H1). split; assumption.
  - exfalso. vm_compute in E. discriminate.
Defined.

(** ** Directional movement and true range *)

(** X15. Directional movement is one-sided: at every index [plusDM] and
    [minusDM] are not negative and at most one of them is not 0. *)
Theorem directional_movement_one_sided (candles : list Candle) (i : nat) :
  0 <= plusDMValue candles i
  /\ 0 <= minusDMValue candles i
  /\ (plusDMValue candles i = 0 \/ minusDMValue candles i = 0).
Proof.
  split; [apply plusDMValue_nonneg|]. split; [apply minusDMValue_nonneg|].
  unfold plusDMValue, minusDMValue. destruct i as [|j]; [now left|]. cbv zeta.
  set (highDiff := high (candle_at candles (S j)) - high (candle_at candles j)).
  set (lowDiff := low (candle_at candles j) - low (candle_at candles (S j))).
  destruct (Qgtb highDiff lowDiff) eqn:Ehl; [|now left].
  destruct (Qgtb lowDiff highDiff) eqn:Elh; [|now right].
  apply Qgtb_lt in Ehl. apply Qgtb_lt in Elh.
  exfalso. apply (Qlt_irrefl lowDiff). now apply Qlt_trans with highDiff.
Qed.











(** ** The summary statistics *)

Lemma Qltb_lt (x y : Q) : Qltb x y = true <-> x < y.
Proof. unfold Qltb. apply (Qgtb_lt y x). Qed.

Lemma win_loss_disjoint (ts : list Trade) :
  (length (wins ts) + length (losses ts) <= length ts)%nat.
Proof.
  unfold wins, losses. induction ts as [|t ts IH]; [cbn; lia|].
  cbn [filter length].
  destruct (Qgtb (pnl t) 0) eqn:Ew; destruct (Qltb (pnl t) 0) eqn:El;
    cbn [length]; try lia.
  apply Qgtb_lt in Ew. apply Qltb_lt in El.
  exfalso. apply (Qlt_irrefl 0). now apply Qlt_trans with (pnl t).
Qed.

(** X17. The counts of [calculateMetrics] fit together: [totalTrades] is the
    length of the trade list, a trade is not both winning and losing, so
    [winningTrades + losingTrades <= totalTrades], and [winRate] is a
    percentage between 0 and 100. *)
Theorem metrics_counts (cfg : BacktestConfig) (ts : list Trade)
    (finalCap maxDD : Q) (signals : nat) :
  totalTrades (calculateMetrics cfg ts finalCap maxDD signals) = length ts
  /\ (winningTrades (calculateMetrics cfg ts finalCap maxDD signals)
      + losingTrades (calculateMetrics cfg ts finalCap maxDD signals)
      <= totalTrades (calculateMetrics cfg ts finalCap maxDD signals))%nat
  /\ 0 <= winRate (calculateMetrics cfg ts finalCap maxDD signals)
  /\ winRate (calculateMetrics cfg ts finalCap maxDD signals) <= 100.
Proof.
  unfold calculateMetrics; cbn [totalTrades winningTrades losingTrades winRate].
  split; [reflexivity|]. split; [apply win_loss_disjoint|].
  destruct (Nat.ltb_spec 0 (length ts)) as [Hpos|_].
  - apply percent_range; [|exact Hpos].
    pose proof (win_loss_disjoint ts). lia.
  - split; [apply Qle_refl | discriminate].
Qed.

Lemma Qsum_wins_losses (ts : list Trade) :
  Qsum (map pnl ts) == Qsum (map pnl (wins ts)) + Qsum (map pnl (losses ts))
  /\ 0 <= Qsum (map pnl (wins ts))
  /\ Qsum (map pnl (losses ts)) <= 0.
Proof.
  unfold wins, losses. induction ts as [|t ts (IH & Hw & Hl)].
  - cbn. split; [reflexivity | split; apply Qle_refl].
  - cbn [filter].
    destruct (Qgtb (pnl t) 0) eqn:Ew; destruct (Qltb (pnl t) 0) eqn:El;
      cbn [map Qsum fold_right]; fold (Qsum (map pnl ts));
      fold (Qsum (map pnl (filter (fun t => Qgtb (pnl t) 0) ts)));
      fold (Qsum (map pnl (filter (fun t => Qltb (pnl t) 0) ts))).
    + apply Qgtb_lt in Ew. apply Qltb_lt in El.
      exfalso. apply (Qlt_irrefl 0). now apply Qlt_trans with (pnl t).
    + apply Qgtb_lt in Ew. (split; [|split]; lra).
    + apply Qltb_lt in El. (split; [|split]; lra).
    + assert (Hz : pnl t == 0).
      { apply Qle_antisym.
        - unfold Qgtb in Ew. apply negb_false_iff in Ew. now apply Qle_bool_iff.
        - unfold Qltb in El. apply negb_false_iff in El. now apply Qle_bool_iff. }
      (split; [|split]; lra).
Qed.

(** X18. The totals of [calculateMetrics] fit together in exact arithmetic:
    gross profit and gross loss are not negative, [totalPnL] is gross profit
    less gross loss, and [averagePnL] times [totalTrades] is [totalPnL]. *)
Theorem metrics_totals (cfg : BacktestConfig) (ts : list Trade)
    (finalCap maxDD : Q) (signals : nat) :
  0 <= grossProfit ts
  /\ 0 <= grossLoss ts
  /\ totalPnL (calculateMetrics cfg ts finalCap maxDD signals)
     == grossProfit ts - grossLoss ts
  /\ averagePnL (calculateMetrics cfg ts finalCap maxDD signals)
     * Qnat (totalTrades (calculateMetrics cfg ts finalCap maxDD signals))
     == totalPnL (calculateMetrics cfg ts finalCap maxDD signals).
Proof.
  destruct (Qsum_wins_losses ts) as (Hsplit & Hw & Hl).
  unfold calculateMetrics; cbn [totalPnL averagePnL totalTrades].
  unfold grossProfit, grossLoss.
  rewrite !reduce_pnl_Qsum.
  split; [exact Hw|]. split; [apply Qabs_nonneg|]. split.
  - rewrite (Qabs_neg _ Hl), (reduce_pnl_Qsum ts), Hsplit. ring.
  - rewrite ?(reduce_pnl_Qsum ts).
    destruct (Nat.ltb_spec 0 (length ts)) as [Hpos|Hzero].
    + apply Qnat_pos in Hpos. field.
      intro Hz. rewrite Hz in Hpos. exact (Qlt_irrefl 0 Hpos).
    + assert (E : ts = []) by (destruct ts; [reflexivity | cbn in Hzero; lia]).
      subst ts. cbn. reflexivity.
Qed.

Lemma Qmax_choice (x y : Q) : Qmax x y = x \/ Qmax x y = y.
Proof.
  unfold Qmax, GenericMinMax.gmax. destruct (x ?= y); auto.
Qed.

Lemma Qmin_choice (x y : Q) : Qmin x y = x \/ Qmin x y = y.
Proof.
  unfold Qmin, GenericMinMax.gmin. destruct (x ?= y); auto.
Qed.

Lemma max_of_spec (x : Q) (rest : list Q) :
  In (max_of (x :: rest)) (x :: rest)
  /\ forall y, In y (x :: rest) -> y <= max_of (x :: rest).
Proof.
  cbn [max_of]. revert x. induction rest as [|z rest IH]; intro x.
  - cbn. split; [now left|]. intros y [<-|[]]. apply Qle_refl.
  - cbn [fold_left]. destruct (IH (Qmax x z)) as [Hin Hle]. split.
    + destruct Hin as [E|Hin]; [|right; now right].
      rewrite <- E. destruct (Qmax_choice x z) as [-> | ->];
        [now left | right; now left].
    + intros y [<-|[<-|Hy]].
      * eapply Qle_trans; [apply Q.le_max_l | apply Hle; now left].
      * eapply Qle_trans; [apply Q.le_max_r | apply Hle; now left].
      * apply Hle. now right.
Qed.

Lemma min_of_spec (x : Q) (rest : list Q) :
  In (min_of (x :: rest)) (x :: rest)
  /\ forall y, In y (x :: rest) -> min_of (x :: rest) <= y.
Proof.
  cbn [min_of]. revert x. induction rest as [|z rest IH]; intro x.
  - cbn. split; [now left|]. intros y [<-|[]]. apply Qle_refl.
  - cbn [fold_left]. destruct (IH (Qmin x z)) as [Hin Hle]. split.
    + destruct Hin as [E|Hin]; [|right; now right].
      rewrite <- E. destruct (Qmin_choice x z) as [-> | ->];
        [now left | right; now left].
    + intros y [<-|[<-|Hy]].
      * eapply Qle_trans; [apply Hle; now left | apply Q.le_min_l].
      * eapply Qle_trans; [apply Hle; now left | apply Q.le_min_r].
      * apply Hle. now right.
Qed.

(** X19. [largestWin] and [largestLoss] of [calculateMetrics] are extremes of
    the trade list: when a trade has a positive [pnl], [largestWin] is the
    positive [pnl] of one of the trades and no trade has a larger one; when
    a trade has a negative [pnl], [largestLoss] is the negative [pnl] of one
    of the trades and no trade has a smaller one; each is 0 when there is no
    such trade. *)
Theorem metrics_largest (cfg : BacktestConfig) (ts : list Trade)
    (finalCap maxDD : Q) (signals : nat) :
  (wins ts <> [] ->
     (exists t, In t ts
                /\ pnl t = largestWin (calculateMetrics cfg ts finalCap maxDD signals)
                /\ 0 < pnl t)
     /\ forall t, In t ts ->
          pnl t <= largestWin (calculateMetrics cfg ts finalCap maxDD signals))
  /\ (wins ts = [] ->
        largestWin (calculateMetrics cfg ts finalCap maxDD signals) = 0)
  /\ (losses ts <> [] ->
        (exists t, In t ts
                   /\ pnl t = largestLoss (calculateMetrics cfg ts finalCap maxDD signals)
                   /\ pnl t < 0)
        /\ forall t, In t ts ->
             largestLoss (calculateMetrics cfg ts finalCap maxDD signals) <= pnl t)
  /\ (losses ts = [] ->
        largestLoss (calculateMetrics cfg ts finalCap maxDD signals) = 0).
Proof.
  unfold calculateMetrics; cbn [largestWin largestLoss].
  split; [|split; [|split]].
  - intro Hne.
    destruct (wins ts) as [|w ws] eqn:Ew; [congruence|]. cbn [length Nat.ltb Nat.leb map].
    destruct (max_of_spec (pnl w) (map pnl ws)) as [Hin Hle].
    assert (Hin' : In (max_of (pnl w :: map pnl ws)) (map pnl (w :: ws)))
      by exact Hin.
    apply in_map_iff in Hin' as (t & Et & Ht).
    rewrite <- Ew in Ht. unfold wins in Ht. apply filter_In in Ht as [Hts Hpos].
    apply Qgtb_lt in Hpos.
    split; [exists t; rewrite Et; repeat split; try assumption; now rewrite <- Et|].
    intros t' Ht'. destruct (Qgtb (pnl t') 0) eqn:E'.
    + apply Hle. apply (in_map pnl (w :: ws)). rewrite <- Ew. unfold wins. apply filter_In. now split.
    + unfold Qgtb in E'. apply negb_false_iff, Qle_bool_iff in E'.
      rewrite <- Et. lra.
  - intros ->. reflexivity.
  - intro Hne.
    destruct (losses ts) as [|w ws] eqn:Ew; [congruence|]. cbn [length Nat.ltb Nat.leb map].
    destruct (min_of_spec (pnl w) (map pnl ws)) as [Hin Hle].
    assert (Hin' : In (min_of (pnl w :: map pnl ws)) (map pnl (w :: ws)))
      by exact Hin.
    apply in_map_iff in Hin' as (t & Et & Ht).
    rewrite <- Ew in Ht. unfold losses in Ht. apply filter_In in Ht as [Hts Hneg].
    apply Qltb_lt in Hneg.
    split; [exists t; rewrite Et; repeat split; try assumption; now rewrite <- Et|].
    intros t' Ht'. destruct (Qltb (pnl t') 0) eqn:E'.
    + apply Hle. apply (in_map pnl (w :: ws)). rewrite <- Ew. unfold losses. apply filter_In. now split.
    + unfold Qltb in E'. apply negb_false_iff, Qle_bool_iff in E'.
      rewrite <- Et. lra.
  - intros ->. reflexivity.
Qed.

Lemma metrics_largest_witness :
  pnl losing_trade
  <= largestWin (calculateMetrics default_config [winning_trade; losing_trade] 0 0 0).
Proof.
  assert (Hne : wins [winning_trade; losing_trade] <> []) by (vm_compute; discriminate).
  assert (Hin : In losing_trade [winning_trade; losing_trade]) by (right; now left).
  exact (proj2 (proj1 (metrics_largest default_config [winning_trade; losing_trade]
                         0 0 0%nat) Hne) losing_trade Hin).
Defined.

(** ** Edges of [getADXValue] *)

Lemma last_elem_repeat_None (A : Type) (n : nat) :
  last_elem (repeat (@None A) n) = None.
Proof. unfold last_elem. apply nth_repeat. Qed.

(** X20. Edges of [getADXValue]: below index [2 * period - 1] there is no
    value; on an empty series there is none; an index at or past the last
    candle reads the last sample of the whole series. *)
Theorem getADXValue_edges (candles : list Candle) (index period : nat) :
  ((index + 1 < period * 2)%nat -> getADXValue candles index period = None)
  /\ getADXValue [] index period = None
  /\ ((length candles <= index + 1)%nat ->
        getADXValue candles index period
        = option_map adx (last_elem (calculateADX candles period))).
Proof.
  split; [|split].
  - intro Hlt. unfold getADXValue, calculateADX. rewrite slice_0.
    destruct (Nat.ltb_spec (length (firstn (index + 1) candles)) (period * 2))
      as [_|Hge].
    + now rewrite last_elem_repeat_None.
    + rewrite length_firstn in Hge. lia.
  - unfold getADXValue, calculateADX. rewrite slice_0, firstn_nil. cbn [length].
    destruct (0 <? period * 2)%nat; reflexivity.
  - intro Hle. unfold getADXValue. rewrite slice_0, firstn_all2 by lia. reflexivity.
Qed.

(** ** The open price is never read *)

Lemma fold_left_ext_eq (A B : Type) (f g : A -> B -> A) (l : list B) (a : A) :
  (forall x y, f x y = g x y) -> fold_left f l a = fold_left g l a.
Proof.
  intro H. revert a. induction l as [|b l IH]; intro a; [reflexivity|].
  cbn. now rewrite H, IH.
Qed.

Section SamePrices.

Variables candles candles' : list Candle.
Hypothesis Hsame : map prices candles = map prices candles'.

Lemma same_length : length candles = length candles'.
Proof.
  rewrite <- (length_map prices candles), Hsame. apply length_map.
Qed.

Lemma same_prices_at (j : nat) :
  prices (candle_at candles j) = prices (candle_at candles' j).
Proof.
  unfold candle_at. rewrite <- !(map_nth prices). now rewrite Hsame.
Qed.

Lemma same_high (j : nat) : high (candle_at candles j) = high (candle_at candles' j).
Proof. pose proof (same_prices_at j) as H. unfold prices in H. congruence. Qed.

Lemma same_low (j : nat) : low (candle_at candles j) = low (candle_at candles' j).
Proof. pose proof (same_prices_at j) as H. unfold prices in H. congruence. Qed.

Lemma same_close (j : nat) : close (candle_at candles j) = close (candle_at candles' j).
Proof. pose proof (same_prices_at j) as H. unfold prices in H. congruence. Qed.

Lemma same_timestamp (j : nat) :
  timestamp (candle_at candles j) = timestamp (candle_at candles' j).
Proof. pose proof (same_prices_at j) as H. unfold prices in H. congruence. Qed.

Lemma same_calculateADX (period : nat) :
  calculateADX candles period = calculateADX candles' period.
Proof.
  unfold calculateADX. rewrite same_length.
  assert (Etr : forall j, calculateTrueRange candles j = calculateTrueRange candles' j).
  { intro j. unfold calculateTrueRange.
    destruct j; now rewrite ?same_high, ?same_low, ?same_close. }
  assert (Epd : forall j, plusDMValue candles j = plusDMValue candles' j).
  { intro j. unfold plusDMValue. destruct j; now rewrite ?same_high, ?same_low. }
  assert (Emd : forall j, minusDMValue candles j = minusDMValue candles' j).
  { intro j. unfold minusDMValue. destruct j; now rewrite ?same_high, ?same_low. }
  rewrite (map_ext _ _ Etr), (map_ext _ _ Epd), (map_ext _ _ Emd). reflexivity.
Qed.

End SamePrices.

Lemma same_screen (params : ADXScreeningParams) (candles candles' : list Candle)
    (i : nat) :
  map prices candles = map prices candles' ->
  screen params candles i = screen params candles' i.
Proof.
  intro Hsame. unfold screen.
  rewrite (same_calculateADX (slice candles 0 (i + 1)) (slice candles' 0 (i + 1))).
  - now rewrite (same_timestamp candles candles' Hsame).
  - rewrite !slice_0, <- !firstn_map. now rewrite Hsame.
Qed.

Lemma same_close_trade (cfg : BacktestConfig) (candles candles' : list Candle)
    (capital : Q) (position : Position.t) (exitIdx : nat) :
  map prices candles = map prices candles' ->
  close_trade cfg candles capital position exitIdx
  = close_trade cfg candles' capital position exitIdx.
Proof.
  intro Hsame. unfold close_trade.
  now rewrite (same_close candles candles' Hsame exitIdx),
    (same_timestamp candles candles' Hsame exitIdx),
    (same_timestamp candles candles' Hsame (Position.entryIndex position)).
Qed.

Lemma same_run_step (cfg : BacktestConfig) (candles candles' : list Candle)
    (sigs : list (option ScreeningResult)) (st : RunState) (i : nat) :
  map prices candles = map prices candles' ->
  run_step cfg candles sigs st i = run_step cfg candles' sigs st i.
Proof.
  intro Hsame. unfold run_step.
  destruct (nth i sigs None) as [s|]; [|reflexivity].
  cbn [rs_position].
  destruct (rs_position st) as [p|].
  - destruct (negb (screening s) || holdingElapsed cfg i (Position.entryIndex p));
      [|reflexivity].
    unfold exit_position. now rewrite (same_close_trade cfg candles candles').
  - destruct (screening s); [|reflexivity].
    unfold open_position. now rewrite (same_close candles candles' Hsame i).
Qed.

(** X21. The open price is never read: two candle series that agree on high,
    low, close and timestamp at every index give the same indicator, the
    same screening signals and the same backtest result. *)
Theorem open_never_read (strategy : ADXScreeningParams) (cfg : BacktestConfig)
    (candles candles' : list Candle) :
  map prices candles = map prices candles' ->
  calculateADX candles (pADXPeriodo strategy)
  = calculateADX candles' (pADXPeriodo strategy)
  /\ screenAll strategy candles = screenAll strategy candles'
  /\ run strategy cfg candles = run strategy cfg candles'.
Proof.
  intro Hsame.
  assert (Hscreen : screenAll strategy candles = screenAll strategy candles').
  { unfold screenAll. rewrite (same_length candles candles' Hsame).
    apply map_ext. intro i. now apply same_screen. }
  split; [now apply same_calculateADX|]. split; [exact Hscreen|].
  unfold run. rewrite Hscreen.
  assert (Hloop : run_loop cfg candles (screenAll strategy candles')
                  = run_loop cfg candles' (screenAll strategy candles')).
  { unfold run_loop. rewrite (same_length candles candles' Hsame).
    apply fold_left_ext_eq. intros st i. now apply same_run_step. }
  rewrite Hloop. unfold forced_close.
  rewrite (same_length candles candles' Hsame).
  destruct (rs_position (run_loop cfg candles' (screenAll strategy candles')))
    as [p|]; [|reflexivity].
  destruct (0 <? length candles')%nat; [|reflexivity].
  now rewrite (same_close_trade cfg candles candles').
Qed.

Lemma open_never_read_witness :
  run sample_strategy default_config sample_candles
  = run sample_strategy default_config reopened_candles.
Proof.
  assert (Hsame : map prices sample_candles = map prices reopened_candles)
    by (vm_compute; reflexivity).
  exact (proj2 (proj2 (open_never_read sample_strategy default_config
                         sample_candles reopened_candles Hsame))).
Defined.

(** ** The equity curve *)





(** ** Wilder's smoothing as a helper *)



(** ** The signal array *)

(** X24. [screenAll] has one entry per candle, in order, and every signal in
    it is well formed: it sits at an index of at least [2 * period], its
    [adxValue] is the non-zero ADX of the full-series scan at that index,
    [screening] and [isLateral] agree and hold exactly when the ADX is at
    most [pADXMaxLateral], and its timestamp is the candle's. *)
Theorem screenAll_signals (strategy : ADXScreeningParams) (candles : list Candle) :
  length (screenAll strategy candles) = length candles
  /\ forall i s, nth i (screenAll strategy candles) None = Some s ->
       (pADXPeriodo strategy * 2 <= i < length candles)%nat
       /\ option_map adx (nth i (calculateADX candles (pADXPeriodo strategy)) None)
          = Some (adxValue s)
       /\ ~ adxValue s == 0
       /\ isLateral s = screening s
       /\ (screening s = true <-> adxValue s <= pADXMaxLateral strategy)
       /\ sr_timestamp s = timestamp (candle_at candles i).
Proof.
  split; [apply screenAll_length|].
  intros i s Es.
  pose proof (nth_signal_in_range _ _ _ Es) as Hlt.
  rewrite screenAll_length in Hlt.
  rewrite nth_screenAll in Es by exact Hlt.
  destruct (screen_some _ _ _ _ Es) as (Hge & Hlat & Hthr & Hnz & Hts).
  repeat split; try assumption; try (now apply Hthr).
  rewrite screen_full_series in Es by exact Hlt.
  destruct (i <? pADXPeriodo strategy * 2)%nat; [discriminate|].
  destruct (nth i (calculateADX candles (pADXPeriodo strategy)) None) as [r|];
    [|discriminate].
  destruct (Qeq_bool (adx r) 0); [discriminate|].
  injection Es as <-. reflexivity.
Qed.

(** ** Raising the threshold *)

Lemma lateral_count_le (f g : nat -> option ScreeningResult) (idx : list nat) :
  (forall i, is_lateral (f i) = true -> is_lateral (g i) = true) ->
  (length (filter is_lateral (map f idx))
   <= length (filter is_lateral (map g idx)))%nat.
Proof.
  intro Himp. induction idx as [|i idx IH]; [cbn; lia|].
  cbn [map filter].
  destruct (is_lateral (f i)) eqn:Ef.
  - rewrite (Himp i Ef). cbn [length]. lia.
  - destruct (is_lateral (g i)); cbn [length]; lia.
Qed.

Lemma screen_threshold (period : nat) (low_thr high_thr : Q)
    (candles : list Candle) (i : nat) :
  low_thr <= high_thr ->
  is_lateral (screen (mkParams period low_thr) candles i) = true ->
  is_lateral (screen (mkParams period high_thr) candles i) = true.
Proof.
  intro Hle. unfold screen; cbn [pADXPeriodo pADXMaxLateral].
  destruct (i <? period * 2)%nat; [discriminate|].
  destruct (last_elem _) as [r|]; [|discriminate].
  destruct (Qeq_bool (adx r) 0); [discriminate|].
  cbn [is_lateral screening]. intro E.
  apply Qle_bool_iff in E. apply Qle_bool_iff. now apply Qle_trans with low_thr.
Qed.

(** X25. Raising [pADXMaxLateral] never loses a lateral signal: with the same
    period and candles, [run] under the higher threshold counts at least as
    many screening signals. *)
Theorem run_signals_monotone (period : nat) (low_thr high_thr : Q)
    (cfg : BacktestConfig) (candles : list Candle) :
  low_thr <= high_thr ->
  (screeningSignals (run (mkParams period low_thr) cfg candles)
   <= screeningSignals (run (mkParams period high_thr) cfg candles))%nat.
Proof.
  intro Hle.
  unfold run, calculateMetrics; cbn [screeningSignals].
  rewrite !forced_close_signals.
  pose proof (run_loop_signals cfg candles
                (screenAll (mkParams period low_thr) candles)) as Hlo.
  pose proof (run_loop_signals cfg candles
                (screenAll (mkParams period high_thr) candles)) as Hhi.
  unfold signals_counted in Hlo, Hhi. rewrite Hlo, Hhi.
  rewrite !firstn_all2 by (rewrite screenAll_length; lia).
  unfold screenAll. apply lateral_count_le.
  intro i. now apply screen_threshold.
Qed.

Lemma run_signals_monotone_witness :
  (screeningSignals (run (mkParams 2 (25 # 1)) default_config sample_candles)
   <= screeningSignals (run (mkParams 2 (32 # 1)) default_config sample_candles))%nat.
Proof.
  assert (Hle : 25 # 1 <= 32 # 1) by (vm_compute; discriminate).
  exact (run_signals_monotone 2 (25 # 1) (32 # 1) default_config sample_candles Hle).
Defined.

(** ** The cost of a flat round trip *)

(** X26. A trade of [run] whose exit candle closes where its entry candle
    closed earns nothing but its costs: in exact arithmetic a long has
    [pnlPercent = -2 * slippage / (1 + slippage) - 2 * commission] and a
    short [-2 * slippage / (1 - slippage) - 2 * commission]; with no
    slippage that is twice the commission. *)
Theorem run_flat_round_trip (strategy : ADXScreeningParams)
    (cfg : BacktestConfig) (candles : list Candle) (t : Trade) :
  In t (trades (run strategy cfg candles)) ->
  close (candle_at candles (exitIndex t))
  == close (candle_at candles (entryIndex t)) ->
  ~ close (candle_at candles (entryIndex t)) == 0 ->
  (type t = long -> ~ 1 + slippage cfg == 0 ->
     pnlPercent t
     == - (2 * slippage cfg) / (1 + slippage cfg) - 2 * commission cfg)
  /\ (type t = short -> ~ 1 - slippage cfg == 0 ->
        pnlPercent t
        == - (2 * slippage cfg) / (1 - slippage cfg) - 2 * commission cfg).
Proof.
  intros Hin Hflat Hnz.
  pose proof (run_sides strategy cfg candles t Hin) as Hentry.
  assert (Hrec : trade_consistent cfg candles t).
  { revert t Hin Hflat Hnz Hentry. unfold run, calculateMetrics; cbn [trades].
    intros t Hin _ _ _. revert t Hin.
    apply (forced_close_consistent cfg candles). apply run_loop_consistent. }
  destruct Hrec as (_ & _ & Hexit & Hpct).
  unfold entry_rule in Hentry.
  split; intros Hside Hs; rewrite Hside in *.
  - destruct (tradingMode cfg); destruct Hentry as [Hl Hprice]; try discriminate;
      rewrite Hpct, Hexit, Hprice, Hflat; field; split; assumption.
  - destruct (tradingMode cfg); destruct Hentry as [Hl Hprice]; try discriminate;
      rewrite Hpct, Hexit, Hprice, Hflat; field; split; assumption.
Qed.

Lemma run_flat_round_trip_witness :
  pnlPercent (nth 1 (trades (run sample_strategy default_config sample_candles)) trade0)
  == - (2 * slippage default_config) / (1 + slippage default_config)
     - 2 * commission default_config.
Proof.
  assert (Hin : In (nth 1 (trades (run sample_strategy default_config sample_candles))
                      trade0)
                  (trades (run sample_strategy default_config sample_candles))).
  { vm_compute. right. left. reflexivity. }
  assert (Hflat : close (candle_at sample_candles
                           (exitIndex (nth 1 (trades (run sample_strategy default_config
                                                        sample_candles)) trade0)))
                  == close (candle_at sample_candles
                              (entryIndex (nth 1 (trades (run sample_strategy
                                                            default_config
                                                            sample_candles)) trade0)))).
  { vm_compute. reflexivity. }
  assert (Hnz : ~ close (candle_at sample_candles
                           (entryIndex (nth 1 (trades (run sample_strategy
                                                         default_config
                                                         sample_candles)) trade0)))
                  == 0).
  { vm_compute. discriminate. }
  assert (Hside : type (nth 1 (trades (run sample_strategy default_config
                                         sample_candles)) trade0) = long).
  { vm_compute. reflexivity. }
  assert (Hs : ~ 1 + slippage default_config == 0) by (vm_compute; discriminate).
  exact (proj1 (run_flat_round_trip sample_strategy default_config sample_candles
                  _ Hin Hflat Hnz) Hside Hs).
Defined.

(** ** When a run trades *)

Lemma pattern_nth (sigs sigs' : list (option ScreeningResult)) (i : nat) :
  pattern sigs = pattern sigs' ->
  option_map screening (nth i sigs None) = option_map screening (nth i sigs' None).
Proof.
  intro H. unfold pattern in H.
  change (@None bool) with (option_map screening None) in |- *.
  rewrite <- !(map_nth (option_map screening)). cbn [option_map]. now rewrite H.
Qed.

Lemma timing_close_trade cfg candles capital position exitIdx :
  timing (close_trade cfg candles capital position exitIdx)
  = (Position.entryIndex position, exitIdx, Position.type position).
Proof. reflexivity. Qed.

Section SamePattern.

Variables cfg cfg' : BacktestConfig.
Variables candles candles' : list Candle.
Variables sigs sigs' : list (option ScreeningResult).

Hypothesis Hmode : tradingMode cfg = tradingMode cfg'.
Hypothesis Hhold : maxHoldingPeriod cfg = maxHoldingPeriod cfg'.
Hypothesis Hlen : length candles = length candles'.
Hypothesis Hpattern : pattern sigs = pattern sigs'.

Lemma same_holdingElapsed (i entry : nat) :
  holdingElapsed cfg i entry = holdingElapsed cfg' i entry.
Proof. unfold holdingElapsed. now rewrite Hhold. Qed.

Lemma run_step_same_timing (st st' : RunState) (i : nat) :
  same_timing st st' ->
  same_timing (run_step cfg candles sigs st i) (run_step cfg' candles' sigs' st' i).
Proof.
  intros (Ht & Hp & Hs). pose proof (pattern_nth sigs sigs' i Hpattern) as Hsig.
  unfold run_step.
  destruct (nth i sigs None) as [s|]; destruct (nth i sigs' None) as [s'|];
    try discriminate; [|now repeat split].
  cbn [option_map] in Hsig. injection Hsig as Hscr. rewrite <- Hscr.
  cbn [rs_position].
  destruct (rs_position st) as [p|]; destruct (rs_position st') as [p'|];
    try discriminate.
  - cbn [option_map] in Hp. injection Hp as Hside Hentry.
    rewrite <- Hentry, <- same_holdingElapsed.
    destruct (negb (screening s) || holdingElapsed cfg i (Position.entryIndex p)).
    + unfold same_timing, exit_position;
        cbn [rs_trades rs_position rs_screeningSignals].
      rewrite !map_app, Ht. cbn [map]. rewrite !timing_close_trade.
      rewrite Hside, Hentry, Hs. repeat split.
    + unfold same_timing; cbn [rs_trades rs_position rs_screeningSignals option_map].
      rewrite Ht, Hside, Hentry, Hs. repeat split.
  - destruct (screening s).
    + unfold same_timing, open_position;
        cbn [rs_trades rs_position rs_screeningSignals].
      rewrite <- Hmode, Ht, Hs. destruct (tradingMode cfg); repeat split.
    + unfold same_timing; cbn [rs_trades rs_position rs_screeningSignals option_map].
      rewrite Ht, Hs. repeat split.
Qed.

Lemma run_loop_same_timing :
  same_timing (run_loop cfg candles sigs) (run_loop cfg' candles' sigs').
Proof.
  unfold run_loop. rewrite <- Hlen.
  generalize (seq 0 (length candles)) as idx.
  assert (Hinit : same_timing (run_init cfg) (run_init cfg')) by now repeat split.
  revert Hinit. generalize (run_init cfg) as st, (run_init cfg') as st'.
  intros st st' Hst idx. revert st st' Hst.
  induction idx as [|i idx IH]; intros st st' Hst; [exact Hst|].
  cbn [fold_left]. apply IH. now apply run_step_same_timing.
Qed.

Lemma forced_close_same_timing (st st' : RunState) :
  same_timing st st' ->
  map timing (rs_trades (forced_close cfg candles st))
  = map timing (rs_trades (forced_close cfg' candles' st'))
  /\ rs_screeningSignals (forced_close cfg candles st)
     = rs_screeningSignals (forced_close cfg' candles' st').
Proof.
  intros (Ht & Hp & Hs). unfold forced_close. rewrite <- Hlen.
  destruct (rs_position st) as [p|]; destruct (rs_position st') as [p'|];
    try discriminate; [|now split].
  cbn [option_map] in Hp. injection Hp as Hside Hentry.
  destruct (0 <? length candles)%nat; [|now split].
  cbn [rs_trades rs_screeningSignals]. split; [|exact Hs].
  rewrite !map_app, Ht. cbn [map]. rewrite !timing_close_trade.
  now rewrite Hside, Hentry.
Qed.

End SamePattern.

(** X27. When [run] trades is decided by the signals alone: two runs on
    series of one length, under one trading mode and holding period, whose
    signal arrays agree on which candles have a signal and which of those
    are lateral, enter and exit on the same candles and on the same side and
    count the same signals, whatever the prices, capital, position size,
    commission and slippage. *)
Theorem run_timing_by_pattern (strategy strategy' : ADXScreeningParams)
    (cfg cfg' : BacktestConfig) (candles candles' : list Candle) :
  tradingMode cfg = tradingMode cfg' ->
  maxHoldingPeriod cfg = maxHoldingPeriod cfg' ->
  length candles = length candles' ->
  pattern (screenAll strategy candles) = pattern (screenAll strategy' candles') ->
  map timing (trades (run strategy cfg candles))
  = map timing (trades (run strategy' cfg' candles'))
  /\ screeningSignals (run strategy cfg candles)
     = screeningSignals (run strategy' cfg' candles').
Proof.
  intros Hmode Hhold Hlen Hpattern.
  unfold run, calculateMetrics; cbn [trades screeningSignals].
  apply forced_close_same_timing; try assumption.
  now apply run_loop_same_timing.
Qed.

Lemma run_timing_by_pattern_witness :
  map timing (trades (run sample_strategy default_config sample_candles))
  = map timing (trades (run sample_strategy other_config sample_candles)).
Proof.
  assert (Hp : pattern (screenAll sample_strategy sample_candles)
               = pattern (screenAll sample_strategy sample_candles)) by reflexivity.
  exact (proj1 (run_timing_by_pattern sample_strategy sample_strategy
                  default_config other_config sample_candles sample_candles
                  eq_refl eq_refl eq_refl Hp)).
Defined.

(** ** Prices in another unit *)
























Section ScaledPrices.

Variable k : Q.
Hypothesis Hk : 0 < k.
Variable candles : list Candle.






End ScaledPrices.





